(** * piewin: the pie-menu chooser of [src/main.c]

    A shallow embedding of the program: the geometry helpers
    ([sector_index_from_point], [distance_to_rect_edge], [fit_font_size]),
    the event loop of [main], the reading of the entries and the smaller
    functions, followed by the properties of the specification.

    Numeric conventions.
    - C [int] values are [Z]; the one narrowing conversion of the program,
      [(int)count] from [size_t], is written out as [to_int].
    - The geometry helpers are embedded in binary64 (module [Binary64]):
      [double] is the primitive float of Rocq, with the libm functions as
      parameters.
    - The event loop and the colours are stated over an idealisation in
      which a [double] is a real number ([R]), the libm functions are the
      mathematical functions they approximate and [M_PI] is [PI].  Of the
      hit test the loop properties use the range of the result, which the
      two clamps give in either arithmetic, and the index 0 of the points
      on the positive x axis from the centre. *)

From Stdlib Require Import ZArith Reals Lra Lia List String Ascii Bool.
From Stdlib Require Import PrimFloat SpecFloat FloatOps FloatAxioms.
From Stdlib Require Uint63.
Import ListNotations.
Open Scope Z_scope.

(** ** C integers *)

Module CInt.

Definition INT_MAX : Z := 2147483647.

(** [(int)v] for an integer [v] outside the range of [int]: reduction
    modulo 2^32 into [-2^31, 2^31). *)
Definition to_int (v : Z) : Z :=
  let m := v mod 4294967296 in
  if m <? 2147483648 then m else m - 4294967296.

End CInt.

(** ** C doubles, idealised *)

Module CDouble.

Local Open Scope R_scope.

Abbreviation double := R.

Definition dlt (a b : double) : bool := if Rlt_dec a b then true else false.
Definition dle (a b : double) : bool := if Rle_dec a b then true else false.

(** [(int)floor(a)]. *)
Definition floor (a : double) : Z := Int_part a.

Definition M_PI : double := PI.

(** The four-quadrant arctangent, with the values the C library fixes on
    the axes: [atan2 0 x = 0] for [x >= 0], [atan2 0 x = PI] for [x < 0]. *)
Definition atan2 (y x : double) : double :=
  if Rlt_dec 0 x then atan (y / x)
  else if Rlt_dec x 0 then
    (if Rle_dec 0 y then atan (y / x) + PI else atan (y / x) - PI)
  else if Rlt_dec 0 y then PI / 2
  else if Rlt_dec y 0 then - (PI / 2)
  else 0.

End CDouble.

Import CInt CDouble.

(** ** The hit test, idealised *)

Module Geometry.

Local Open Scope R_scope.

(** The angle of the pointer as [sector_index_from_point] uses it: the
    arctangent of [(x - W/2, y - H/2)], with [2*M_PI] added when negative. *)
Definition pointer_angle (W H x y : Z) : double :=
  let cx := IZR W * 0.5 in
  let cy := IZR H * 0.5 in
  let ang := atan2 (IZR y - cy) (IZR x - cx) in
  if dlt ang 0 then ang + 2.0 * M_PI else ang.

(** [sector_index_from_point], lines 165-176. *)
Definition sector_index_from_point (n W H x y : Z) : Z :=
  if (n <=? 0)%Z then (-1)%Z
  else
    let ang := pointer_angle W H x y in
    let step := 2.0 * M_PI / IZR n in
    let idx := floor (ang / step) in
    let idx := if (idx <? 0)%Z then 0%Z else idx in
    let idx := if (idx >=? n)%Z then (n - 1)%Z else idx in
    idx.

End Geometry.

Import Geometry.

(** ** The geometry helpers in binary64 *)

(** [double] is Rocq's primitive binary64 float, with the arithmetic and
    the comparisons of the processor.  The libm functions [cos], [sin] and
    [atan2] are parameters; [fabs] and [isfinite] are the primitive [abs]
    and [is_finite]; [fmin], [fmax] and the conversions are written out. *)
Module Binary64.

Local Open Scope float_scope.

(** [(double)z] for an [int] [z]. *)
Definition of_int (z : Z) : float :=
  if (z <? 0)%Z then - of_uint63 (Uint63.of_Z (- z))
  else of_uint63 (Uint63.of_Z z).

Definition INT_MIN : Z := (-2147483648)%Z.

(** [(int)floor(d)].  Where C leaves the conversion undefined (NaN,
    infinities, values outside [int]) the result is the one of the x86-64
    conversion instruction, [INT_MIN]. *)
Definition int_of_floor (d : float) : Z :=
  match Prim2SF d with
  | S754_zero _ => 0%Z
  | S754_finite s m e =>
      let v := if s then Z.neg m else Z.pos m in
      let f := if (0 <=? e)%Z then (v * 2 ^ e)%Z else (v / 2 ^ (- e))%Z in
      if ((INT_MIN <=? f) && (f <=? INT_MAX))%Z then f else INT_MIN
  | S754_infinity _ => INT_MIN
  | S754_nan => INT_MIN
  end.

(** [M_PI], the double nearest to 3.14159265358979323846. *)
Definition M_PI : float := 0x1.921fb54442d18p+1.

(** The double nearest to [1e-9]. *)
Definition tolerance : float := 0x1.12e0be826d695p-30.

Definition fmin (a b : float) : float :=
  if is_nan a then b
  else if is_nan b then a
  else if a <? b then a else b.

Definition fmax (a b : float) : float :=
  if is_nan a then b
  else if is_nan b then a
  else if a <? b then b else a.

Section Libm.

Variables cos sin : float -> float.
Variable atan2 : float -> float -> float.

(** [distance_to_rect_edge], lines 140-163. *)
Definition distance_to_rect_edge (W H : Z) (cx cy ang : float) : float :=
  let dx := cos ang in
  let dy := sin ang in
  let tx := infinity in
  let ty := infinity in
  let tx :=
    if tolerance <? abs dx then
      let t1 := (0.0 - cx) / dx in
      let y1 := cy + t1 * dy in
      let tx :=
        if (0 <? t1) && (0 <=? y1) && (y1 <=? of_int H) then t1 else tx in
      let t2 := (of_int W - cx) / dx in
      let y2 := cy + t2 * dy in
      if (0 <? t2) && (0 <=? y2) && (y2 <=? of_int H) then fmin tx t2
      else tx
    else tx in
  let ty :=
    if tolerance <? abs dy then
      let t3 := (0.0 - cy) / dy in
      let x3 := cx + t3 * dx in
      let ty :=
        if (0 <? t3) && (0 <=? x3) && (x3 <=? of_int W) then t3 else ty in
      let t4 := (of_int H - cy) / dy in
      let x4 := cx + t4 * dx in
      if (0 <? t4) && (0 <=? x4) && (x4 <=? of_int W) then fmin ty t4
      else ty
    else ty in
  let t := fmin tx ty in
  if negb (is_finite t) || (t <=? 0) then 0.0 else t.

(** [sector_index_from_point], lines 165-176. *)
Definition sector_index_from_point (n W H x y : Z) : Z :=
  if (n <=? 0)%Z then (-1)%Z
  else
    let cx := of_int W * 0.5 in
    let cy := of_int H * 0.5 in
    let ang := atan2 (of_int y - cy) (of_int x - cx) in
    let ang := if ang <? 0 then ang + 2.0 * M_PI else ang in
    let step := (2.0 * M_PI) / of_int n in
    let idx := int_of_floor (ang / step) in
    let idx := if (idx <? 0)%Z then 0%Z else idx in
    let idx := if (idx >=? n)%Z then (n - 1)%Z else idx in
    idx.

End Libm.

(** [fit_font_size], lines 178-195.  The cairo context and the text are
    represented by what the loop uses of them: [extents s], the width and
    height that [cairo_text_extents] reports for the text at font size [s]. *)
Section FitFontSize.

Variable extents : float -> float * float.
Variables maxw maxh : float.

Definition fits (s : float) : bool :=
  let (w, h) := extents s in (w <=? maxw) && (h <=? maxh).

Fixpoint fit_loop (iters : nat) (lo hi : float) : float :=
  match iters with
  | O => lo
  | S k =>
      let mid := (lo + hi) * 0.5 in
      if fits mid then fit_loop k mid hi else fit_loop k lo mid
  end.

Definition fit_font_size : float :=
  fit_loop 20 1.0 (fmax 1.0 (fmin maxw maxh)).

End FitFontSize.

End Binary64.

(** ** The event loop of [main], lines 514-619 *)

Module Session.

(** The fields of [App] that the loop reads or writes.  [keysyms] stands
    for [xcb_key_symbols_get_keysym(app.keysyms, detail, 0)]. *)
Record App : Type := mkApp {
  width : Z;
  height : Z;
  WM_PROTOCOLS : Z;
  WM_DELETE_WINDOW : Z;
  keysyms : Z -> Z
}.

(** The events the [switch] distinguishes, with the fields it reads. *)
Inductive xcb_event : Type :=
| XCB_EXPOSE
| XCB_MOTION_NOTIFY (event_x event_y : Z)
| XCB_BUTTON_PRESS (detail event_x event_y : Z)
| XCB_BUTTON_RELEASE (detail event_x event_y : Z)
| XCB_KEY_PRESS (detail : Z)
| XCB_CONFIGURE_NOTIFY (w h : Z)
| XCB_CLIENT_MESSAGE (type data0 : Z)
| XCB_OTHER (response_type : Z).

(** One call of [draw]: the canvas size and the hover index it was given. *)
Record Frame : Type := mkFrame {
  frame_width : Z;
  frame_height : Z;
  frame_hover : Z
}.

(** The variables of [main] that live across loop iterations, the bytes
    written to standard output and the calls of [draw] made so far. *)
Record Loop : Type := mkLoop {
  app : App;
  hover_idx : Z;
  pressed_idx : Z;
  exit_code : Z;
  running : bool;
  stdout : string;
  frames : list Frame
}.

Definition XK_Escape : Z := 65307.
Definition LF : string := String (ascii_of_nat 10) EmptyString.

Definition set_app (s : Loop) (a : App) : Loop :=
  mkLoop a (hover_idx s) (pressed_idx s) (exit_code s) (running s)
         (stdout s) (frames s).
Definition set_hover_idx (s : Loop) (i : Z) : Loop :=
  mkLoop (app s) i (pressed_idx s) (exit_code s) (running s)
         (stdout s) (frames s).
Definition set_pressed_idx (s : Loop) (i : Z) : Loop :=
  mkLoop (app s) (hover_idx s) i (exit_code s) (running s)
         (stdout s) (frames s).
Definition stop (s : Loop) (code : Z) : Loop :=
  mkLoop (app s) (hover_idx s) (pressed_idx s) code false
         (stdout s) (frames s).
Definition fputs (s : Loop) (text : string) : Loop :=
  mkLoop (app s) (hover_idx s) (pressed_idx s) (exit_code s) (running s)
         (String.append (stdout s) text) (frames s).
Definition draw (s : Loop) : Loop :=
  mkLoop (app s) (hover_idx s) (pressed_idx s) (exit_code s) (running s)
         (stdout s)
         (frames s ++ [mkFrame (width (app s)) (height (app s)) (hover_idx s)]).

Section Entries.

Variable entries : list string.

(** [(int)count]. *)
Definition count : Z := to_int (Z.of_nat (List.length entries)).

(** [entries[idx].text]. *)
Definition entry_text (idx : Z) : string :=
  nth (Z.to_nat idx) entries EmptyString.

Definition sector (s : Loop) (x y : Z) : Z :=
  sector_index_from_point count (width (app s)) (height (app s)) x y.

(** The body of the [switch] for one event. *)
Definition handle_event (s : Loop) (ev : xcb_event) : Loop :=
  match ev with
  | XCB_EXPOSE => draw s
  | XCB_MOTION_NOTIFY x y =>
      let idx := sector s x y in
      if negb (idx =? hover_idx s) then draw (set_hover_idx s idx) else s
  | XCB_BUTTON_PRESS detail x y =>
      if detail =? 1 then set_pressed_idx s (sector s x y) else s
  | XCB_BUTTON_RELEASE detail x y =>
      let s :=
        if detail =? 1 then
          let idx := sector s x y in
          if (idx >=? 0) && (idx <? count) then
            stop (fputs s (String.append (entry_text idx) LF)) 0
          else s
        else s in
      set_pressed_idx s (-1)
  | XCB_KEY_PRESS detail =>
      let sym := keysyms (app s) detail in
      if (sym =? XK_Escape) || (sym =? 113) || (sym =? 81) then stop s 1
      else s
  | XCB_CONFIGURE_NOTIFY w h =>
      if negb (w =? width (app s)) || negb (h =? height (app s)) then
        let a := app s in
        draw (set_app s (mkApp w h (WM_PROTOCOLS a) (WM_DELETE_WINDOW a)
                               (keysyms a)))
      else s
  | XCB_CLIENT_MESSAGE type data0 =>
      if (type =? WM_PROTOCOLS (app s)) && (data0 =? WM_DELETE_WINDOW (app s))
      then stop s 1
      else s
  | XCB_OTHER _ => s
  end.

(** One iteration of [while (running)] on the next event. *)
Definition loop_step (s : Loop) (ev : xcb_event) : Loop :=
  if running s then handle_event s ev else s.

(** The loop on the events [evs] that [xcb_wait_for_event] delivers; at
    the end of [evs] it returns [NULL] and the loop is left. *)
Fixpoint main_loop (evs : list xcb_event) (s : Loop) : Loop :=
  match evs with
  | [] => s
  | ev :: rest => if running s then main_loop rest (handle_event s ev) else s
  end.

(** The state in which the loop is entered: lines 514-520, after the
    initial [draw]. *)
Definition session_start (a : App) : Loop :=
  draw (mkLoop a (-1) (-1) 1 true EmptyString []).

(** [main] from line 448 on: its exit status and what it wrote to standard
    output, for the entries read and the events delivered. *)
Definition main (a : App) (evs : list xcb_event) : Z * string :=
  if Nat.eqb (List.length entries) 0 then (1, EmptyString)
  else
    let s := main_loop evs (session_start a) in
    (exit_code s, stdout s).

End Entries.

(** The phase of the specification, read off the loop variables. *)
Inductive Phase : Type := Running | Selected | Cancelled.

Definition phase (s : Loop) : Phase :=
  if running s then Running
  else if exit_code s =? 0 then Selected else Cancelled.

End Session.

Import Session.

(** ** Vocabulary of the properties *)

(** The number of calls of [draw] made so far. *)
Definition renders (s : Loop) : nat := List.length (frames s).

(** A cancel request: a key whose symbol is Escape, [q] or [Q], or the
    window manager's [WM_DELETE_WINDOW] message. *)
Definition cancel_request (a : App) (ev : xcb_event) : Prop :=
  match ev with
  | XCB_KEY_PRESS detail =>
      keysyms a detail = XK_Escape \/
      keysyms a detail = 113 \/ keysyms a detail = 81
  | XCB_CLIENT_MESSAGE type data0 =>
      type = WM_PROTOCOLS a /\ data0 = WM_DELETE_WINDOW a
  | _ => False
  end.

(** Standard output stays empty and the exit status stays 1 until a
    selection stops the loop with status 0. *)
Definition quiet (s : Loop) : Prop :=
  (exit_code s = 1 /\ stdout s = EmptyString) \/
  (running s = false /\ exit_code s = 0).

(** The hover index is a wedge index. *)
Definition hovering (entries : list string) (s : Loop) : Prop :=
  0 <= hover_idx s <= count entries - 1.

(** The real number that a finite double stands for. *)
Definition real_of (d : float) : R :=
  match Prim2SF d with
  | S754_finite s m e =>
      (IZR (if s then Z.neg m else Z.pos m) * powerRZ 2 e)%R
  | _ => 0%R
  end.

(** Width and height do not shrink when the font size grows. *)
Definition nondecreasing (extents : float -> float * float) : Prop :=
  forall s1 s2 : float,
    (s1 <=? s2)%float = true ->
    (fst (extents s1) <=? fst (extents s2))%float = true /\
    (snd (extents s1) <=? snd (extents s2))%float = true.

(** The measurement of a square glyph: width and height equal the size. *)
Definition square_extents (s : float) : float * float := (s, s).

(** The measurement of a text that is 0 wide up to size 5 and 100 wide
    above it, and has no height. *)
Definition step_extents (s : float) : float * float :=
  ((if s <=? 5 then 0 else 100)%float, 0%float).

(** The sizes that [fit_font_size] tries when every trial fits: [lo] moves
    to each midpoint and [hi] stays. *)
Fixpoint trial_sizes (iters : nat) (lo hi : float) : list float :=
  match iters with
  | O => []
  | S k =>
      let mid := ((lo + hi) * 0.5)%float in mid :: trial_sizes k mid hi
  end.

(** The last of them, the size returned in that case. *)
Fixpoint closest_size (iters : nat) (lo hi : float) : float :=
  match iters with
  | O => lo
  | S k => closest_size k ((lo + hi) * 0.5)%float hi
  end.

(** For the bound [hi = k], an integer: no trial size exceeds [k], and the
    last one is the double that stands for [(k * (2^20 - 1) + 1) / 2^20]. *)
Definition pixel_box_exact (k : Z) : bool :=
  let hi := Binary64.of_int k in
  forallb (fun s => (s <=? hi)%float) (trial_sizes 20 1%float hi) &&
  match Prim2SF (closest_size 20 1%float hi) with
  | S754_finite false m e =>
      (e <=? -20) && (Z.pos m =? (k * 1048575 + 1) * 2 ^ (- e - 20))
  | _ => false
  end.

(** The largest side, in pixels, for which [pixel_box_exact] is
    evaluated. *)
Definition max_side : Z := 4096.

(** A menu and a canvas to evaluate the program on. *)
Definition demo_entries : list string :=
  ["One"%string; "Two"%string; "Three"%string].

Definition demo_app : App := mkApp 300 300 1 2 (fun keycode => keycode).


(** ** The rest of the program *)

(** [dbg_enabled], lines 31-40.  [init] and [on] are its two static
    variables; [env] is what [getenv("DEBUG")] returns at the call. *)
Module Debug.

Record Flags : Type := mkFlags { init : bool; on : bool }.

Definition flags_start : Flags := mkFlags false false.

Definition dbg_enabled (st : Flags) (env : option string) : bool * Flags :=
  if negb (init st) then
    let v :=
      match env with
      | Some d =>
          negb (String.eqb d EmptyString) && negb (String.eqb d "0"%string)
      | None => false
      end in
    (v, mkFlags true v)
  else (on st, st).

End Debug.

(** [find_visualtype], lines 71-81.  The screen's depth iterator is the
    list of its depths, each with the list of its visuals. *)
Module Visuals.

Record xcb_visualtype_t : Type := mkVisual {
  visual_id : Z;
  class_ : Z;
  bits_per_rgb_value : Z
}.

Fixpoint find_in_depth (visuals : list xcb_visualtype_t) (vid : Z)
  : option xcb_visualtype_t :=
  match visuals with
  | [] => None
  | v :: rest => if visual_id v =? vid then Some v else find_in_depth rest vid
  end.

Fixpoint find_visualtype (depths : list (list xcb_visualtype_t)) (vid : Z)
  : option xcb_visualtype_t :=
  match depths with
  | [] => None
  | visuals :: rest =>
      match find_in_depth visuals vid with
      | Some v => Some v
      | None => find_visualtype rest vid
      end
  end.

End Visuals.

(** Reading the entries from standard input, lines 418-451.  Standard
    input is the string of its bytes.  Allocation is taken to succeed; the
    array [entries] is the list of its first [count] elements together with
    its capacity [cap]. *)
Module Input.

Definition is_char (n : nat) (c : ascii) : bool :=
  Nat.eqb (nat_of_ascii c) n.

Definition is_eol (c : ascii) : bool := is_char 10 c || is_char 13 c.

(** The successive results of [getline]: each line with its line feed, the
    last one possibly without.  [cur] is the part of the current line that
    has been read. *)
Fixpoint getlines_from (cur : string) (input : string) : list string :=
  match input with
  | EmptyString =>
      match cur with
      | EmptyString => []
      | _ => [cur]
      end
  | String c rest =>
      if is_char 10 c
      then String.append cur (String c EmptyString)
           :: getlines_from EmptyString rest
      else getlines_from (String.append cur (String c EmptyString)) rest
  end.

Definition getlines (input : string) : list string :=
  getlines_from EmptyString input.

(** The line after [while (r > 0 && (line[r-1] == '\n' || line[r-1] ==
    '\r')) line[--r] = '\0']: its trailing line feeds and carriage returns
    are gone. *)
Fixpoint trim_eol (line : string) : string :=
  match line with
  | EmptyString => EmptyString
  | String c rest =>
      match trim_eol rest with
      | EmptyString => if is_eol c then EmptyString else String c EmptyString
      | t => String c t
      end
  end.

(** [strndup(line, r)] on the [r] bytes of the trimmed line: the copy ends
    at the first NUL byte. *)
Fixpoint strndup (line : string) : string :=
  match line with
  | EmptyString => EmptyString
  | String c rest =>
      if is_char 0 c then EmptyString else String c (strndup rest)
  end.

Record Entries : Type := mkEntries {
  cap : Z;
  texts : list string
}.

(** The body of the reading loop for one line.  [None] stands for a store
    to [entries[count]] outside the allocated [cap] elements. *)
Definition read_line (st : Entries) (line : string) : option Entries :=
  let t := trim_eol line in
  if Nat.eqb (String.length t) 0 then Some st
  else
    let count := Z.of_nat (List.length (texts st)) in
    let cap' :=
      if count =? cap st
      then (if cap st =? 0 then 8 else cap st * 2)
      else cap st in
    if count <? cap'
    then Some (mkEntries cap' (texts st ++ [strndup t]))
    else None.

Fixpoint read_lines (st : Entries) (lines : list string) : option Entries :=
  match lines with
  | [] => Some st
  | line :: rest =>
      match read_line st line with
      | Some st' => read_lines st' rest
      | None => None
      end
  end.

Definition read_entries (input : string) : option Entries :=
  read_lines (mkEntries 0 []) (getlines input).

End Input.

(** [hsv_to_rgb], lines 93-138, with [fmod] of the C library.  [rgb0]
    holds what [*r], [*g] and [*b] contain before the call: the [switch]
    has no default case and leaves them as they are when no case applies. *)
Module Colour.

Local Open Scope R_scope.

(** The integer part of [a], rounded towards zero. *)
Definition trunc (a : double) : Z :=
  if Rle_dec 0 a then Int_part a else (- Int_part (- a))%Z.

Definition fmod (x y : double) : double := x - IZR (trunc (x / y)) * y.

Record RGB : Type := mkRGB { red : double; green : double; blue : double }.

Definition hsv_to_rgb (h s v : double) (rgb0 : RGB) : RGB :=
  if dle s 0.0 then mkRGB v v v
  else
    let h := fmod h 1.0 in
    let h := if dlt h 0 then h + 1.0 else h in
    let i := floor (h * 6.0) in
    let f := h * 6.0 - IZR i in
    let p := v * (1.0 - s) in
    let q := v * (1.0 - s * f) in
    let t := v * (1.0 - s * (1.0 - f)) in
    match Z.rem i 6 with
    | 0%Z => mkRGB v t p
    | 1%Z => mkRGB q v p
    | 2%Z => mkRGB p v t
    | 3%Z => mkRGB p q v
    | 4%Z => mkRGB t p v
    | 5%Z => mkRGB v p q
    | _ => rgb0
    end.

(** The fill colour of wedge [i] in [draw], lines 240-242. *)
Definition wedge_fill (n i hover_idx : Z) (rgb0 : RGB) : RGB :=
  let base_v := if (i =? hover_idx)%Z then 0.85 else 0.62 in
  hsv_to_rgb (IZR i / IZR n) 0.55 base_v rgb0.

End Colour.

(** The whole of [main]: the help option (lines 408-411), the reading of
    the entries and the session.  The connection to the display is taken
    to succeed.  [None] stands for a store outside the array of entries. *)
Module Program.

Definition wants_help (argv : list string) : bool :=
  match argv with
  | _ :: arg1 :: _ =>
      String.eqb arg1 "-h"%string || String.eqb arg1 "--help"%string
  | _ => false
  end.

Definition piewin (argv : list string) (stdin_text : string)
  (a : App) (evs : list xcb_event) : option (Z * string) :=
  if wants_help argv then Some (0, EmptyString)
  else
    match Input.read_entries stdin_text with
    | Some st => Some (main (Input.texts st) a evs)
    | None => None
    end.

End Program.

(** ** Vocabulary of the further properties *)

Definition is_press (ev : xcb_event) : bool :=
  match ev with
  | XCB_BUTTON_PRESS _ _ _ => true
  | _ => false
  end.

Definition is_primary_release (ev : xcb_event) : bool :=
  match ev with
  | XCB_BUTTON_RELEASE detail _ _ => detail =? 1
  | _ => false
  end.

(** The frame that [draw] would produce in state [s]. *)
Definition current_frame (s : Loop) : Frame :=
  mkFrame (width (app s)) (height (app s)) (hover_idx s).

Definition CRLF : string := String (ascii_of_nat 13) LF.

(** A label that reading keeps as it is: not empty, without line feed and
    NUL byte, and not ending in a carriage return. *)
Definition clean_label (l : string) : Prop :=
  l <> EmptyString /\
  (forall c, In c (list_ascii_of_string l) ->
             Input.is_char 10 c = false /\ Input.is_char 0 c = false) /\
  (forall p c, l = String.append p (String c EmptyString) ->
               Input.is_char 13 c = false).

(** The text of standard input that lists [labels], one per line. *)
Fixpoint lines_text (eol : string) (labels : list string) : string :=
  match labels with
  | [] => EmptyString
  | l :: rest => String.append l (String.append eol (lines_text eol rest))
  end.

(** ** The integer parts, evaluated *)

Example to_int_in_range : to_int 3 = 3.
Proof. reflexivity. Qed.

Example to_int_wraps : to_int 2147483648 = -2147483648.
Proof. reflexivity. Qed.

Example count_demo : count demo_entries = 3.
Proof. reflexivity. Qed.

Example entry_text_demo : entry_text demo_entries 2 = "Three"%string.
Proof. reflexivity. Qed.

Example session_start_demo :
  session_start demo_app
  = mkLoop demo_app (-1) (-1) 1 true EmptyString [mkFrame 300 300 (-1)].
Proof. reflexivity. Qed.

Example escape_cancels :
  loop_step demo_entries (session_start demo_app) (XCB_KEY_PRESS 65307)
  = stop (session_start demo_app) 1.
Proof. reflexivity. Qed.

Example resize_redraws :
  frames (loop_step demo_entries (session_start demo_app)
            (XCB_CONFIGURE_NOTIFY 640 480))
  = [mkFrame 300 300 (-1); mkFrame 640 480 (-1)].
Proof. reflexivity. Qed.

(** ** Properties of the idealised hit test *)

Section GeometryFacts.

Local Open Scope R_scope.

Lemma dlt_true (a b : double) : dlt a b = true <-> a < b.
Proof. unfold dlt; destruct (Rlt_dec a b); split; intros; try easy. Qed.

Lemma dlt_false (a b : double) : dlt a b = false <-> b <= a.
Proof.
  unfold dlt; destruct (Rlt_dec a b); split; intros; try easy; lra.
Qed.

Lemma dle_true (a b : double) : dle a b = true <-> a <= b.
Proof. unfold dle; destruct (Rle_dec a b); split; intros; try easy. Qed.

Lemma dle_false (a b : double) : dle a b = false <-> b < a.
Proof.
  unfold dle; destruct (Rle_dec a b); split; intros; try easy; lra.
Qed.

Lemma floor_bounds (a : double) : IZR (floor a) <= a < IZR (floor a) + 1.
Proof. unfold floor; destruct (base_Int_part a); lra. Qed.

Lemma floor_unique (a : double) (z : Z) : IZR z <= a < IZR z + 1 -> floor a = z.
Proof.
  intros Hz; unfold floor; symmetry; apply Int_part_spec; lra.
Qed.

Lemma atan_neg (u : R) : u < 0 -> atan u < 0.
Proof. intros Hu; rewrite <- atan_0; now apply atan_increasing. Qed.

Lemma atan_pos (u : R) : 0 < u -> 0 < atan u.
Proof. intros Hu; rewrite <- atan_0; now apply atan_increasing. Qed.

Lemma atan_nonpos (u : R) : u <= 0 -> atan u <= 0.
Proof.
  intros [Hu | ->]; [left; now apply atan_neg | rewrite atan_0; lra].
Qed.

(** The arctangent lies in (-PI, PI]. *)
Lemma atan2_range (y x : double) : - PI < atan2 y x <= PI.
Proof.
  pose proof PI_RGT_0 as Hpi.
  unfold atan2.
  destruct (Rlt_dec 0 x) as [Hx | Hx].
  - pose proof (atan_bound (y / x)); lra.
  - destruct (Rlt_dec x 0) as [Hx' | Hx'].
    + pose proof (atan_bound (y / x)) as Hb.
      destruct (Rle_dec 0 y) as [Hy | Hy].
      * assert (atan (y / x) <= 0).
        { apply atan_nonpos. unfold Rdiv.
          assert (/ x < 0) by now apply Rinv_lt_0_compat.
          nra. }
        lra.
      * assert (0 < atan (y / x)).
        { apply atan_pos. unfold Rdiv.
          assert (/ x < 0) by now apply Rinv_lt_0_compat.
          nra. }
        lra.
    + destruct (Rlt_dec 0 y); [lra |].
      destruct (Rlt_dec y 0); lra.
Qed.

(** After normalisation the angle lies in [0, 2*PI). *)
Lemma pointer_angle_range (W H x y : Z) :
  0 <= pointer_angle W H x y < 2 * PI.
Proof.
  unfold pointer_angle, M_PI.
  set (a := atan2 _ _).
  pose proof (atan2_range (IZR y - IZR H * 0.5) (IZR x - IZR W * 0.5)) as Ha.
  fold a in Ha.
  pose proof PI_RGT_0.
  destruct (dlt a 0) eqn:E.
  - apply dlt_true in E; lra.
  - apply dlt_false in E; lra.
Qed.

(** Whatever the quotient is, the two clamps put the index into
    [0, n-1]. *)
Lemma sector_index_clamped (n W H x y : Z) :
  (1 <= n)%Z -> (0 <= sector_index_from_point n W H x y <= n - 1)%Z.
Proof.
  intros Hn. unfold sector_index_from_point.
  destruct (Z.leb_spec n 0) as [Hle | _]; [lia |].
  set (i := floor _).
  destruct (Z.ltb_spec i 0).
  - destruct (Z.geb_spec 0 n); lia.
  - destruct (Z.geb_spec i n); lia.
Qed.

(** Over the reals, for [n >= 1] neither clamp of
    [sector_index_from_point] fires: the result is the floor of the
    quotient itself. *)
Lemma sector_index_is_floor (n W H x y : Z) :
  (1 <= n)%Z ->
  sector_index_from_point n W H x y
  = floor (pointer_angle W H x y / (2 * PI / IZR n)) /\
  (0 <= sector_index_from_point n W H x y <= n - 1)%Z.
Proof.
  intros Hn.
  unfold sector_index_from_point, M_PI.
  destruct (Z.leb_spec n 0) as [Hle | _]; [lia |].
  replace (2.0 * PI) with (2 * PI) by lra.
  set (q := pointer_angle W H x y / (2 * PI / IZR n)).
  pose proof (pointer_angle_range W H x y) as Ha.
  pose proof PI_RGT_0 as Hpi.
  assert (Hn' : 1 <= IZR n) by now apply IZR_le.
  assert (Hq : 0 <= q < IZR n).
  { unfold q.
    replace (pointer_angle W H x y / (2 * PI / IZR n))
      with (pointer_angle W H x y * IZR n / (2 * PI)) by (field; lra).
    split.
    - apply Rmult_le_pos; [nra |].
      apply Rlt_le, Rinv_0_lt_compat; lra.
    - apply (Rmult_lt_reg_r (2 * PI)); [lra |].
      unfold Rdiv; rewrite Rmult_assoc, Rinv_l by lra.
      nra. }
  pose proof (floor_bounds q) as Hf.
  assert (Hlo : (0 <= floor q)%Z).
  { assert ((-1 < floor q)%Z) by (apply lt_IZR; lra).
    lia. }
  assert (Hhi : (floor q < n)%Z) by (apply lt_IZR; lra).
  destruct (Z.ltb_spec (floor q) 0); [lia |].
  destruct (Z.geb_spec (floor q) n); [lia |].
  split; [reflexivity | lia].
Qed.

End GeometryFacts.

Section SectorFacts.

Local Open Scope R_scope.

(** A pointer on the horizontal line through the centre and to the right
    of it has angle 0 and therefore lies in wedge 0. *)
Lemma pointer_angle_east (W H x y : Z) :
  (2 * y = H)%Z -> (W < 2 * x)%Z -> pointer_angle W H x y = 0.
Proof.
  intros Hy Hx.
  unfold pointer_angle, atan2.
  assert (Ey : IZR y - IZR H * 0.5 = 0).
  { rewrite <- Hy, mult_IZR; lra. }
  assert (Ex : 0 < IZR x - IZR W * 0.5).
  { apply IZR_lt in Hx; rewrite mult_IZR in Hx; lra. }
  rewrite Ey.
  destruct (Rlt_dec 0 (IZR x - IZR W * 0.5)) as [_ | Hn]; [| contradiction].
  unfold Rdiv; rewrite Rmult_0_l, atan_0.
  destruct (dlt 0 0) eqn:E; [apply dlt_true in E; lra | reflexivity].
Qed.

Lemma sector_index_east (n W H x y : Z) :
  (1 <= n)%Z -> (2 * y = H)%Z -> (W < 2 * x)%Z ->
  sector_index_from_point n W H x y = 0%Z.
Proof.
  intros Hn Hy Hx.
  destruct (sector_index_is_floor n W H x y Hn) as [-> _].
  rewrite (pointer_angle_east W H x y Hy Hx).
  apply floor_unique; simpl.
  unfold Rdiv; rewrite Rmult_0_l; lra.
Qed.

End SectorFacts.

(** ** Properties of the event loop *)

Section LoopFacts.

Variable entries : list string.

Lemma count_le_length : count entries <= Z.of_nat (List.length entries).
Proof.
  unfold count, to_int.
  set (v := Z.of_nat (List.length entries)).
  assert (Hv : 0 <= v) by apply Nat2Z.is_nonneg.
  pose proof (Z.mod_le v 4294967296 Hv ltac:(lia)).
  destruct (Z.ltb_spec (v mod 4294967296) 2147483648); lia.
Qed.

Lemma sector_in_range (s : Loop) (x y : Z) :
  1 <= count entries -> 0 <= sector entries s x y <= count entries - 1.
Proof.
  intros Hn. unfold sector. now apply sector_index_clamped.
Qed.

Lemma sector_none (s : Loop) (x y : Z) :
  count entries <= 0 -> sector entries s x y = -1.
Proof.
  intros Hn. unfold sector, sector_index_from_point.
  destruct (Z.leb_spec (count entries) 0); [reflexivity | lia].
Qed.

(** The test [idx >= 0 && idx < (int)count] of the release handler. *)
Lemma release_test (s : Loop) (x y : Z) :
  let idx := sector entries s x y in
  (idx >=? 0) && (idx <? count entries) = true <-> 0 <= idx < count entries.
Proof.
  intros idx. rewrite andb_true_iff, Z.geb_le, Z.ltb_lt. tauto.
Qed.

Lemma release_primary_valid (s : Loop) (x y : Z) :
  0 <= sector entries s x y < count entries ->
  handle_event entries s (XCB_BUTTON_RELEASE 1 x y)
  = set_pressed_idx
      (stop (fputs s (String.append (entry_text entries (sector entries s x y))
                                    LF)) 0) (-1).
Proof.
  intros Hv. apply release_test in Hv.
  unfold handle_event. simpl (1 =? 1). cbv iota. now rewrite Hv.
Qed.

Lemma release_primary_invalid (s : Loop) (x y : Z) :
  ~ 0 <= sector entries s x y < count entries ->
  handle_event entries s (XCB_BUTTON_RELEASE 1 x y) = set_pressed_idx s (-1).
Proof.
  intros Hv. unfold handle_event. simpl (1 =? 1). cbv iota.
  destruct ((sector entries s x y >=? 0) && (sector entries s x y <? count entries))
    eqn:E; [| reflexivity].
  apply release_test in E. contradiction.
Qed.

Lemma main_loop_stopped (evs : list xcb_event) (s : Loop) :
  running s = false -> main_loop entries evs s = s.
Proof. intros Hs; destruct evs; simpl; [| rewrite Hs]; reflexivity. Qed.

Lemma main_loop_app (evs1 evs2 : list xcb_event) (s : Loop) :
  main_loop entries (evs1 ++ evs2) s
  = main_loop entries evs2 (main_loop entries evs1 s).
Proof.
  revert s; induction evs1 as [| ev evs1 IH]; intros s; simpl.
  - reflexivity.
  - destruct (running s) eqn:Hs.
    + apply IH.
    + symmetry; now apply main_loop_stopped.
Qed.

Lemma main_loop_cons (ev : xcb_event) (evs : list xcb_event) (s : Loop) :
  main_loop entries (ev :: evs) s
  = main_loop entries evs (loop_step entries s ev).
Proof.
  unfold loop_step; simpl.
  destruct (running s) eqn:Hs; [reflexivity |].
  symmetry; now apply main_loop_stopped.
Qed.

(** A property kept by every handler is kept by the loop. *)
Lemma main_loop_invariant (P : Loop -> Prop) :
  (forall s ev, P s -> running s = true -> P (handle_event entries s ev)) ->
  forall evs s, P s -> P (main_loop entries evs s).
Proof.
  intros Hstep evs; induction evs as [| ev evs IH]; intros s Hs; simpl.
  - exact Hs.
  - destruct (running s) eqn:Hr; [| exact Hs].
    apply IH, Hstep; assumption.
Qed.

Lemma handle_event_quiet (s : Loop) (ev : xcb_event) :
  quiet s -> running s = true -> quiet (handle_event entries s ev).
Proof.
  intros [[Hc Ho] | [Hr _]] Hrun; [| congruence].
  destruct ev as [| x y | d x y | d x y | d | w h | t d0 | r];
    unfold handle_event.
  - left; now split.
  - destruct (negb _); left; now split.
  - destruct (d =? 1); left; now split.
  - destruct (d =? 1); [| left; now split].
    destruct (_ && _); [right | left]; now split.
  - destruct (_ || _); left; now split.
  - destruct (_ || _); left; now split.
  - destruct (_ && _); left; now split.
  - left; now split.
Qed.

Lemma handle_event_hovering (s : Loop) (ev : xcb_event) :
  1 <= count entries ->
  hovering entries s -> hovering entries (handle_event entries s ev).
Proof.
  intros Hn Hh. unfold hovering in *.
  destruct ev as [| x y | d x y | d x y | d | w h | t d0 | r];
    unfold handle_event.
  - exact Hh.
  - destruct (negb _); [| exact Hh]. simpl. now apply sector_in_range.
  - destruct (d =? 1); exact Hh.
  - destruct (d =? 1); [| exact Hh].
    destruct (_ && _); exact Hh.
  - destruct (_ || _); exact Hh.
  - destruct (_ || _); exact Hh.
  - destruct (_ && _); exact Hh.
  - exact Hh.
Qed.

Lemma motion_hovering (s : Loop) (x y : Z) :
  1 <= count entries ->
  hovering entries (handle_event entries s (XCB_MOTION_NOTIFY x y)).
Proof.
  intros Hn. unfold hovering, handle_event.
  pose proof (sector_in_range s x y Hn) as Hs.
  destruct (Z.eqb_spec (sector entries s x y) (hover_idx s)) as [E | E]; simpl.
  - now rewrite <- E.
  - exact Hs.
Qed.

End LoopFacts.

(** ** Selection *)

(** C1.  With the three entries One, Two, Three on a 300x300 canvas, a
    release of the primary button at (250,150) in a running session ends it
    as Selected and writes the label of entry 0, One, and a line feed.  In
    general, in every running session a primary-button release whose
    computed wedge index [idx] satisfies [0 <= idx < n] ends the session as
    Selected with exit status 0, writes the text of the entry at position
    [idx] of the menu and a line feed, and clears the press index; the
    hover index and the frames stay as they are. *)
Theorem primary_release_selects :
  (forall s : Loop,
     running s = true -> width (app s) = 300 -> height (app s) = 300 ->
     let s' := loop_step demo_entries s (XCB_BUTTON_RELEASE 1 250 150) in
     sector demo_entries s 250 150 = 0 /\
     phase s' = Selected /\
     stdout s' = String.append (stdout s) (String.append "One" LF)) /\
  (forall (entries : list string) (s : Loop) (x y : Z),
     running s = true ->
     let idx := sector entries s x y in
     0 <= idx < count entries ->
     let s' := loop_step entries s (XCB_BUTTON_RELEASE 1 x y) in
     phase s' = Selected /\
     exit_code s' = 0 /\
     (exists label : string,
        nth_error entries (Z.to_nat idx) = Some label /\
        stdout s' = String.append (stdout s) (String.append label LF)) /\
     (Z.to_nat idx < List.length entries)%nat /\
     pressed_idx s' = -1 /\
     hover_idx s' = hover_idx s /\ frames s' = frames s).
Proof.
  assert (General : forall (entries : list string) (s : Loop) (x y : Z),
     running s = true ->
     let idx := sector entries s x y in
     0 <= idx < count entries ->
     let s' := loop_step entries s (XCB_BUTTON_RELEASE 1 x y) in
     phase s' = Selected /\
     exit_code s' = 0 /\
     (exists label : string,
        nth_error entries (Z.to_nat idx) = Some label /\
        stdout s' = String.append (stdout s) (String.append label LF)) /\
     (Z.to_nat idx < List.length entries)%nat /\
     pressed_idx s' = -1 /\
     hover_idx s' = hover_idx s /\ frames s' = frames s).
  { intros entries s x y Hrun idx Hidx s'.
    unfold s', loop_step. rewrite Hrun.
    rewrite (release_primary_valid entries s x y Hidx). fold idx.
    pose proof (count_le_length entries) as Hlen.
    assert (Hnth : (Z.to_nat idx < List.length entries)%nat) by lia.
    split; [reflexivity |]. split; [reflexivity |]. split.
    - exists (entry_text entries idx). split; [| reflexivity].
      unfold entry_text. now apply nth_error_nth'.
    - repeat split. exact Hnth. }
  split; [| exact General].
  intros s Hrun HW HH s'.
  assert (E : sector demo_entries s 250 150 = 0).
  { unfold sector. rewrite HW, HH.
    apply sector_index_east; [vm_compute; discriminate | lia | lia]. }
  assert (Hv : 0 <= sector demo_entries s 250 150 < count demo_entries).
  { rewrite E. vm_compute. split; [discriminate | reflexivity]. }
  destruct (General demo_entries s 250 150 Hrun Hv)
    as (Hp & _ & (label & Hnth & Ho) & _).
  rewrite E in Hnth. simpl in Hnth. injection Hnth as <-.
  repeat split; assumption.
Qed.

Lemma primary_release_selects_witness :
  let s := session_start demo_app in
  let s' := loop_step demo_entries s (XCB_BUTTON_RELEASE 1 250 150) in
  phase s' = Selected /\
  stdout s' = String.append (stdout s) (String.append "One" LF).
Proof.
  intros s s'.
  destruct primary_release_selects as [Hdemo _].
  destruct (Hdemo s eq_refl eq_refl eq_refl) as (_ & Hp & Ho).
  split; assumption.
Defined.

(** C3, as the code has it.  A primary-button release whose computed
    wedge index is invalid clears the press index and leaves the session
    running, but with [n >= 1] entries no release is of that kind: every
    point, a point outside the canvas included, has a wedge index in
    [0, n-1], and a primary-button release there clears the press index and
    ends the session as Selected with the label of that wedge written. *)
Theorem primary_release_outside_selects :
  (forall (entries : list string) (s : Loop) (x y : Z),
     running s = true ->
     ~ 0 <= sector entries s x y < count entries ->
     let s' := loop_step entries s (XCB_BUTTON_RELEASE 1 x y) in
     s' = set_pressed_idx s (-1) /\ pressed_idx s' = -1 /\ phase s' = Running) /\
  (forall (entries : list string) (s : Loop) (x y : Z),
     running s = true ->
     1 <= count entries ->
     let idx := sector entries s x y in
     let s' := loop_step entries s (XCB_BUTTON_RELEASE 1 x y) in
     0 <= idx < count entries /\
     pressed_idx s' = -1 /\
     phase s' = Selected /\
     stdout s' = String.append (stdout s)
                   (String.append (entry_text entries idx) LF)).
Proof.
  split.
  - intros entries s x y Hrun Hinv s'.
    unfold s', loop_step. rewrite Hrun.
    rewrite (release_primary_invalid entries s x y Hinv).
    unfold phase; simpl; rewrite Hrun. repeat split.
  - intros entries s x y Hrun Hn idx s'.
    pose proof (sector_in_range entries s x y Hn) as Hs. fold idx in Hs.
    assert (Hv : 0 <= idx < count entries) by lia.
    unfold s', loop_step. rewrite Hrun.
    rewrite (release_primary_valid entries s x y Hv).
    repeat split; lia.
Qed.

Lemma primary_release_outside_selects_witness :
  (let s := session_start demo_app in
   pressed_idx (loop_step [] s (XCB_BUTTON_RELEASE 1 400 150)) = -1) /\
  (let s := session_start demo_app in
   phase (loop_step demo_entries s (XCB_BUTTON_RELEASE 1 400 150)) = Selected).
Proof.
  destruct primary_release_outside_selects as [Hinv Hsel].
  split.
  - intros s.
    apply (Hinv [] s 400 150 eq_refl).
    rewrite (sector_none [] s 400 150); vm_compute; [| discriminate].
    intros [Hc _]; now apply Hc.
  - intros s.
    apply (Hsel demo_entries s 400 150 eq_refl).
    vm_compute; discriminate.
Defined.

(** C3, as claimed, fails: on the 300x300 canvas with three entries, a
    primary-button release at (400,150), outside the canvas, does not leave
    the session running; it selects wedge 0. *)
Lemma release_outside_canvas_not_running :
  let s := session_start demo_app in
  let s' := loop_step demo_entries s (XCB_BUTTON_RELEASE 1 400 150) in
  running s = true /\ 1 <= count demo_entries /\
  ~ (0 <= 400 < width (app s) /\ 0 <= 150 < height (app s)) /\
  phase s' <> Running /\
  phase s' = Selected /\
  stdout s' = String.append "One" LF.
Proof.
  intros s s'.
  assert (E : sector demo_entries s 400 150 = 0).
  { apply sector_index_east; vm_compute; try reflexivity; discriminate. }
  assert (Hs' : s' = set_pressed_idx
            (stop (fputs s (String.append (entry_text demo_entries 0) LF)) 0)
            (-1)).
  { unfold s', loop_step. simpl (running s). cbv iota.
    rewrite release_primary_valid; rewrite E; [reflexivity |].
    vm_compute; split; [discriminate | reflexivity]. }
  split; [reflexivity |].
  split; [vm_compute; discriminate |].
  split; [simpl; lia |].
  rewrite Hs'. repeat split; discriminate.
Qed.

(** ** Buttons other than the primary one *)

(** C9, as the code has it.  In a running session a press of a button
    other than the primary one changes nothing at all.  A release of such
    a button writes nothing and leaves the hover index, the phase, the exit
    status, the canvas and the frames as they are, but it does reset the
    press index to -1. *)
Theorem other_button_effect
  (entries : list string) (s : Loop) (detail x y : Z) :
  running s = true -> detail <> 1 ->
  loop_step entries s (XCB_BUTTON_PRESS detail x y) = s /\
  let s' := loop_step entries s (XCB_BUTTON_RELEASE detail x y) in
  s' = set_pressed_idx s (-1) /\
  pressed_idx s' = -1 /\
  hover_idx s' = hover_idx s /\ phase s' = phase s /\
  stdout s' = stdout s /\ frames s' = frames s.
Proof.
  intros Hrun Hd.
  unfold loop_step, handle_event. rewrite Hrun.
  destruct (Z.eqb_spec detail 1) as [E | _]; [contradiction |].
  repeat split.
Qed.

Lemma other_button_effect_witness :
  let s := loop_step demo_entries (session_start demo_app)
             (XCB_BUTTON_PRESS 1 250 150) in
  loop_step demo_entries s (XCB_BUTTON_PRESS 3 250 150) = s /\
  pressed_idx (loop_step demo_entries s (XCB_BUTTON_RELEASE 3 250 150)) = -1.
Proof.
  intros s.
  destruct (other_button_effect demo_entries s 3 250 150 eq_refl ltac:(lia))
    as (Hpress & _ & Hrel & _).
  split; assumption.
Defined.

(** C9, as claimed, fails: after a primary-button press at (250,150) has
    recorded press index 0, the release of button 3 changes the press
    index to -1. *)
Lemma other_button_release_clears_press :
  let s := loop_step demo_entries (session_start demo_app)
             (XCB_BUTTON_PRESS 1 250 150) in
  let s' := loop_step demo_entries s (XCB_BUTTON_RELEASE 3 250 150) in
  running s = true /\ pressed_idx s = 0 /\ pressed_idx s' = -1 /\
  pressed_idx s' <> pressed_idx s.
Proof.
  intros s s'.
  assert (E : pressed_idx s = 0).
  { unfold s, loop_step, handle_event; simpl.
    apply sector_index_east; vm_compute; try reflexivity; discriminate. }
  split; [reflexivity |]. split; [exact E |].
  split; [reflexivity |]. rewrite E. simpl. discriminate.
Qed.

(** ** Termination of the session *)

Lemma cancel_request_stops
  (entries : list string) (s : Loop) (ev : xcb_event) :
  cancel_request (app s) ev -> handle_event entries s ev = stop s 1.
Proof.
  destruct ev as [| x y | d x y | d x y | d | w h | t d0 | r];
    simpl; try contradiction.
  - intros [E | [E | E]]; rewrite E; reflexivity.
  - intros [-> ->]. now rewrite !Z.eqb_refl.
Qed.

(** C5.  In a running session the Escape key, the key [q], the key [Q] and
    the window manager's close request each set the phase to Cancelled,
    with exit status 1 and without writing or rendering anything.  A
    session that ends as Cancelled has exit status 1 and an empty standard
    output; in particular, when a cancel request reaches a session that is
    still running, the program returns 1 and has written nothing, whatever
    events were delivered before and whatever events follow. *)
Theorem cancel_request_cancels (entries : list string) :
  (forall (s : Loop) (ev : xcb_event),
     running s = true -> cancel_request (app s) ev ->
     let s' := loop_step entries s ev in
     phase s' = Cancelled /\ exit_code s' = 1 /\
     stdout s' = stdout s /\ frames s' = frames s) /\
  (forall (a : App) (evs : list xcb_event),
     let s := main_loop entries evs (session_start a) in
     phase s = Cancelled ->
     exit_code s = 1 /\ stdout s = EmptyString /\
     main entries a evs = (1, EmptyString)) /\
  (forall (a : App) (before after : list xcb_event) (ev : xcb_event),
     let s := main_loop entries before (session_start a) in
     running s = true -> cancel_request (app s) ev ->
     main entries a (before ++ ev :: after) = (1, EmptyString)).
Proof.
  assert (Hquiet : forall a evs,
            quiet (main_loop entries evs (session_start a))).
  { intros a evs. apply main_loop_invariant.
    - intros; now apply handle_event_quiet.
    - left; split; reflexivity. }
  assert (Hstep : forall s ev,
            running s = true -> cancel_request (app s) ev ->
            loop_step entries s ev = stop s 1).
  { intros s ev Hrun Hev. unfold loop_step. rewrite Hrun.
    now apply cancel_request_stops. }
  assert (Hend : forall a evs,
            let s := main_loop entries evs (session_start a) in
            phase s = Cancelled ->
            exit_code s = 1 /\ stdout s = EmptyString /\
            main entries a evs = (1, EmptyString)).
  { intros a evs s Hp.
    assert (Hs : exit_code s = 1 /\ stdout s = EmptyString).
    { destruct (Hquiet a evs) as [Hq | [Hr Hc]]; [exact Hq |].
      fold s in Hr, Hc. unfold phase in Hp. rewrite Hr, Hc in Hp.
      discriminate. }
    destruct Hs as [Hc Ho]. repeat split; try assumption.
    unfold main. destruct (Nat.eqb _ 0); [reflexivity |].
    fold s. now rewrite Hc, Ho. }
  split; [| split].
  - intros s ev Hrun Hev s'. unfold s'. rewrite (Hstep s ev Hrun Hev).
    repeat split.
  - exact Hend.
  - intros a before after ev s Hrun Hev.
    apply Hend.
    rewrite main_loop_app, main_loop_cons. fold s.
    rewrite (Hstep s ev Hrun Hev).
    rewrite main_loop_stopped by reflexivity. reflexivity.
Qed.

Lemma cancel_request_cancels_witness :
  phase (loop_step demo_entries (session_start demo_app)
           (XCB_KEY_PRESS 113)) = Cancelled /\
  main demo_entries demo_app
    ([XCB_MOTION_NOTIFY 10 10] ++ XCB_CLIENT_MESSAGE 1 2 ::
     [XCB_BUTTON_RELEASE 1 250 150])
  = (1, EmptyString).
Proof.
  destruct (cancel_request_cancels demo_entries) as (Hstep & _ & Hrun).
  split.
  - apply (Hstep (session_start demo_app) (XCB_KEY_PRESS 113) eq_refl).
    simpl. right; left; reflexivity.
  - apply (Hrun demo_app [XCB_MOTION_NOTIFY 10 10]
             [XCB_BUTTON_RELEASE 1 250 150] (XCB_CLIENT_MESSAGE 1 2)).
    + simpl. destruct (negb _); reflexivity.
    + simpl. destruct (negb _); split; reflexivity.
Defined.

(** C6.  Selected and Cancelled are absorbing.  Once the phase is not
    Running, an iteration of the loop on any event returns the state as it
    is: phase, exit status, output and frames (so no further render) are
    unchanged, and the same holds for any sequence of further events. *)
Theorem terminal_phase_absorbing
  (entries : list string) (s : Loop) :
  phase s <> Running ->
  (forall ev : xcb_event, loop_step entries s ev = s) /\
  (forall evs : list xcb_event, main_loop entries evs s = s) /\
  (forall before after : list xcb_event,
     forall s0 : Loop, s = main_loop entries before s0 ->
     main_loop entries (before ++ after) s0 = s).
Proof.
  intros Hp.
  assert (Hr : running s = false).
  { unfold phase in Hp. destruct (running s); [now elim Hp | reflexivity]. }
  split; [| split].
  - intros ev. unfold loop_step. now rewrite Hr.
  - intros evs. now apply main_loop_stopped.
  - intros before after s0 Hs.
    rewrite main_loop_app, <- Hs. now apply main_loop_stopped.
Qed.

Lemma terminal_phase_absorbing_witness :
  let s := loop_step demo_entries (session_start demo_app)
             (XCB_KEY_PRESS 65307) in
  loop_step demo_entries s (XCB_BUTTON_RELEASE 1 250 150) = s.
Proof.
  intros s.
  apply (terminal_phase_absorbing demo_entries s).
  simpl. discriminate.
Defined.

(** ** Hovering *)

Lemma renders_draw (s : Loop) : renders (draw s) = S (renders s).
Proof.
  unfold renders, draw; simpl. rewrite length_app; simpl. lia.
Qed.

(** C7, as the code has it.  In a running session a pointer motion whose
    computed wedge index equals the hover index changes nothing and does
    not render; one whose index differs stores that index as the hover
    index and renders exactly once.  A second motion to the same point
    never changes anything, so two consecutive motions to one point render
    exactly once when the first of them changes the hover index (as it
    does when the hover index is still -1 and there is an entry) and do
    not render at all when the pointer's wedge is already the hovered
    one. *)
Theorem motion_renders_on_change
  (entries : list string) (s : Loop) (x y : Z) :
  running s = true ->
  let idx := sector entries s x y in
  let s1 := loop_step entries s (XCB_MOTION_NOTIFY x y) in
  let s2 := loop_step entries s1 (XCB_MOTION_NOTIFY x y) in
  (idx = hover_idx s -> s1 = s /\ renders s2 = renders s) /\
  (idx <> hover_idx s ->
   s1 = draw (set_hover_idx s idx) /\ hover_idx s1 = idx /\
   renders s1 = S (renders s) /\ renders s2 = S (renders s)) /\
  s2 = s1 /\
  (hover_idx s = -1 -> 1 <= count entries -> renders s2 = S (renders s)).
Proof.
  intros Hrun idx s1 s2.
  assert (H1 : s1 = if negb (idx =? hover_idx s)
                    then draw (set_hover_idx s idx) else s).
  { unfold s1, loop_step. rewrite Hrun. reflexivity. }
  assert (Hidx : sector entries s1 x y = idx /\ hover_idx s1 = idx /\
                 running s1 = true).
  { rewrite H1. destruct (Z.eqb_spec idx (hover_idx s)) as [E | E]; simpl.
    - repeat split; [now symmetry | exact Hrun].
    - repeat split; exact Hrun. }
  destruct Hidx as (Hsec & Hhov & Hrun1).
  assert (H2 : s2 = s1).
  { unfold s2, loop_step, handle_event. rewrite Hrun1, Hsec, Hhov.
    now rewrite Z.eqb_refl. }
  assert (Hsame : idx = hover_idx s -> s1 = s).
  { intros E. rewrite H1, E, Z.eqb_refl. reflexivity. }
  assert (Hdiff : idx <> hover_idx s -> s1 = draw (set_hover_idx s idx)).
  { intros E. rewrite H1. apply Z.eqb_neq in E. now rewrite E. }
  split; [| split; [| split]].
  - intros E. split; [now apply Hsame |]. now rewrite H2, (Hsame E).
  - intros E. rewrite H2, (Hdiff E), renders_draw. repeat split.
  - exact H2.
  - intros Hm Hn.
    pose proof (sector_in_range entries s x y Hn) as Hr. fold idx in Hr.
    rewrite H2, Hdiff by lia. rewrite renders_draw. reflexivity.
Qed.

Lemma motion_renders_on_change_witness :
  let s := session_start demo_app in
  renders (loop_step demo_entries
             (loop_step demo_entries s (XCB_MOTION_NOTIFY 160 150))
             (XCB_MOTION_NOTIFY 160 150)) = S (renders s).
Proof.
  intros s.
  apply (motion_renders_on_change demo_entries s 160 150 eq_refl).
  - reflexivity.
  - vm_compute; discriminate.
Defined.

(** C7, as claimed, fails in its last sentence: in the running session
    whose pointer was last seen at (260,150), in wedge 0, two consecutive
    motions to (250,150), also in wedge 0, render nothing. *)
Lemma two_motions_without_render :
  let s := loop_step demo_entries (session_start demo_app)
             (XCB_MOTION_NOTIFY 260 150) in
  let s1 := loop_step demo_entries s (XCB_MOTION_NOTIFY 250 150) in
  let s2 := loop_step demo_entries s1 (XCB_MOTION_NOTIFY 250 150) in
  running s = true /\ hover_idx s = 0 /\
  renders s2 = renders s /\ renders s2 <> S (renders s).
Proof.
  intros s s1 s2.
  assert (E0 : forall t x, width (app t) = 300 -> height (app t) = 300 ->
                 300 < 2 * x -> sector demo_entries t x 150 = 0).
  { intros t x HW HH Hx. unfold sector. rewrite HW, HH.
    apply sector_index_east; [vm_compute; discriminate | reflexivity | exact Hx]. }
  assert (Hs : s = draw (set_hover_idx (session_start demo_app) 0)).
  { unfold s, loop_step, handle_event. simpl (running _). cbv iota.
    rewrite E0 by (try reflexivity; lia). reflexivity. }
  clearbody s. subst s.
  assert (Hs1 : s1 = draw (set_hover_idx (session_start demo_app) 0)).
  { unfold s1, loop_step, handle_event. simpl (running _). cbv iota.
    rewrite E0 by (try reflexivity; lia). reflexivity. }
  clearbody s1. subst s1.
  assert (Hs2 : s2 = draw (set_hover_idx (session_start demo_app) 0)).
  { unfold s2, loop_step, handle_event. simpl (running _). cbv iota.
    rewrite E0 by (try reflexivity; lia). reflexivity. }
  rewrite Hs2.
  split; [reflexivity |]. split; [reflexivity |].
  split; [reflexivity | lia].
Qed.

(** C10.  With [n >= 1] entries, once a pointer motion has been handled
    the hover index lies in [0, n-1], and it stays there whatever events
    follow: it is never -1 again. *)
Theorem hover_index_stays_valid
  (entries : list string) (s0 : Loop) (before after : list xcb_event)
  (x y : Z) :
  1 <= count entries ->
  running (main_loop entries before s0) = true ->
  let s := main_loop entries (before ++ XCB_MOTION_NOTIFY x y :: after) s0 in
  0 <= hover_idx s <= count entries - 1 /\ hover_idx s <> -1.
Proof.
  intros Hn Hrun s.
  assert (Hh : hovering entries s).
  { unfold s. rewrite main_loop_app, main_loop_cons.
    apply main_loop_invariant.
    - intros t ev Ht _. now apply handle_event_hovering.
    - unfold loop_step. rewrite Hrun. now apply motion_hovering. }
  unfold hovering in Hh. lia.
Qed.

Lemma hover_index_stays_valid_witness :
  let s := main_loop demo_entries
             ([XCB_EXPOSE] ++ XCB_MOTION_NOTIFY 10 10 ::
              [XCB_CONFIGURE_NOTIFY 640 480; XCB_EXPOSE])
             (session_start demo_app) in
  0 <= hover_idx s <= count demo_entries - 1 /\ hover_idx s <> -1.
Proof.
  apply (hover_index_stays_valid demo_entries (session_start demo_app)
           [XCB_EXPOSE] [XCB_CONFIGURE_NOTIFY 640 480; XCB_EXPOSE] 10 10).
  - vm_compute; discriminate.
  - reflexivity.
Defined.

(** ** Further properties of the event loop *)

Section LoopOutcome.

Variable entries : list string.

Lemma entry_text_in (s : Loop) (x y : Z) :
  0 <= sector entries s x y < count entries ->
  In (entry_text entries (sector entries s x y)) entries.
Proof.
  intros Hv. unfold entry_text. apply nth_In.
  pose proof (count_le_length entries). lia.
Qed.

(** The loop ends with status 1 and nothing written, or stopped with
    status 0 and the text of an entry and a line feed written. *)
Lemma main_loop_outcome (a : App) (evs : list xcb_event) :
  let s := main_loop entries evs (session_start a) in
  (exit_code s = 1 /\ stdout s = EmptyString) \/
  (running s = false /\
   exists label, In label entries /\
     exit_code s = 0 /\ stdout s = String.append label LF).
Proof.
  apply (main_loop_invariant entries (fun s =>
     (exit_code s = 1 /\ stdout s = EmptyString) \/
     (running s = false /\
      exists label, In label entries /\
        exit_code s = 0 /\ stdout s = String.append label LF))).
  - intros s ev [[Hc Ho] | [Hr _]] Hrun; [| congruence].
    destruct ev as [| x y | d x y | d x y | d | w h | t d0 | r];
      unfold handle_event.
    + left; now split.
    + destruct (negb _); left; now split.
    + destruct (d =? 1); left; now split.
    + destruct (d =? 1); [| left; now split].
      destruct (_ && _) eqn:E; [| left; now split].
      apply release_test in E.
      right. split; [reflexivity |].
      exists (entry_text entries (sector entries s x y)).
      split; [now apply entry_text_in |].
      split; [reflexivity |]. simpl. now rewrite Ho.
    + destruct (_ || _); left; now split.
    + destruct (_ || _); left; now split.
    + destruct (_ && _); left; now split.
    + left; now split.
  - left; split; reflexivity.
Qed.

(** X1.  The program ends in one of two ways: with exit status 1 and
    nothing on standard output, or with exit status 0 and exactly one line
    on standard output, the text of one of the entries followed by a line
    feed. *)
Theorem main_outcome (a : App) (evs : list xcb_event) :
  main entries a evs = (1, EmptyString) \/
  exists label : string,
    In label entries /\ main entries a evs = (0, String.append label LF).
Proof.
  unfold main. destruct (Nat.eqb _ 0); [now left |].
  destruct (main_loop_outcome a evs)
    as [[Hc Ho] | (_ & label & Hin & Hc & Ho)].
  - left. now rewrite Hc, Ho.
  - right. exists label. split; [exact Hin |]. now rewrite Hc, Ho.
Qed.

(** X2.  What is on the screen is never stale: at every point of a
    session the last call of [draw] was made with the present canvas size
    and the present hover index. *)
Theorem last_frame_is_current (a : App) (evs : list xcb_event) :
  let s := main_loop entries evs (session_start a) in
  exists earlier : list Frame, frames s = earlier ++ [current_frame s].
Proof.
  apply (main_loop_invariant entries
           (fun s => exists earlier, frames s = earlier ++ [current_frame s])).
  - intros s ev [earlier He] _.
    assert (Hdraw : forall t, exists e, frames (draw t) = e ++ [current_frame (draw t)]).
    { intros t. exists (frames t). reflexivity. }
    assert (Hsame : exists e, frames s = e ++ [current_frame s])
      by (exists earlier; exact He).
    destruct ev as [| x y | d x y | d x y | d | w h | t d0 | r];
      unfold handle_event.
    + apply Hdraw.
    + destruct (negb _); [apply Hdraw | exact Hsame].
    + destruct (d =? 1); exact Hsame.
    + destruct (d =? 1); [| exact Hsame].
      destruct (_ && _); exact Hsame.
    + destruct (_ || _); exact Hsame.
    + destruct (_ || _); [apply Hdraw | exact Hsame].
    + destruct (_ && _); exact Hsame.
    + exact Hsame.
  - exists []. reflexivity.
Qed.

Lemma handle_event_forgets_press (s : Loop) (i : Z) (ev : xcb_event) :
  set_pressed_idx (handle_event entries (set_pressed_idx s i) ev) 0
  = set_pressed_idx (handle_event entries s ev) 0.
Proof.
  destruct ev as [| x y | d x y | d x y | d | w h | t d0 | r];
    unfold handle_event, sector; simpl.
  - reflexivity.
  - destruct (negb _); reflexivity.
  - destruct (d =? 1); reflexivity.
  - destruct (d =? 1); [| reflexivity].
    destruct (_ && _); reflexivity.
  - destruct (_ || _); reflexivity.
  - destruct (_ || _); reflexivity.
  - destruct (_ && _); reflexivity.
  - reflexivity.
Qed.

Lemma press_only_sets_press (s : Loop) (ev : xcb_event) :
  is_press ev = true ->
  set_pressed_idx (handle_event entries s ev) 0 = set_pressed_idx s 0.
Proof.
  destruct ev; try discriminate. intros _. unfold handle_event.
  destruct (detail =? 1); reflexivity.
Qed.

Lemma same_but_press_running (s1 s2 : Loop) :
  set_pressed_idx s1 0 = set_pressed_idx s2 0 -> running s1 = running s2.
Proof. intros E. apply (f_equal running) in E. exact E. Qed.

Lemma same_but_press_step (s1 s2 : Loop) (ev : xcb_event) :
  set_pressed_idx s1 0 = set_pressed_idx s2 0 ->
  set_pressed_idx (handle_event entries s1 ev) 0
  = set_pressed_idx (handle_event entries s2 ev) 0.
Proof.
  intros E.
  rewrite <- (handle_event_forgets_press s1 0).
  rewrite <- (handle_event_forgets_press s2 0).
  now rewrite E.
Qed.

Lemma main_loop_without_presses (evs : list xcb_event) :
  forall s1 s2 : Loop,
    set_pressed_idx s1 0 = set_pressed_idx s2 0 ->
    set_pressed_idx (main_loop entries evs s1) 0
    = set_pressed_idx
        (main_loop entries (filter (fun ev => negb (is_press ev)) evs) s2) 0.
Proof.
  induction evs as [| ev evs IH]; intros s1 s2 E; simpl; [exact E |].
  pose proof (same_but_press_running s1 s2 E) as Hr.
  destruct (is_press ev) eqn:Hp; simpl.
  - destruct (running s1) eqn:H1.
    + apply IH. rewrite press_only_sets_press by exact Hp. exact E.
    + rewrite main_loop_stopped by congruence. exact E.
  - rewrite <- Hr. destruct (running s1); [| exact E].
    apply IH. now apply same_but_press_step.
Qed.

(** X3.  Button presses have no influence on the session: removing every
    [XCB_BUTTON_PRESS] event from the events delivered changes neither the
    exit status, nor the output, nor the frames drawn, nor the final hover
    index; only the recorded press index can differ. *)
Theorem presses_do_not_matter (a : App) (evs : list xcb_event) :
  let evs' := filter (fun ev => negb (is_press ev)) evs in
  let s := main_loop entries evs (session_start a) in
  let s' := main_loop entries evs' (session_start a) in
  main entries a evs = main entries a evs' /\
  frames s = frames s' /\ hover_idx s = hover_idx s' /\
  running s = running s' /\ app s = app s'.
Proof.
  intros evs' s s'.
  assert (E : set_pressed_idx s 0 = set_pressed_idx s' 0)
    by now apply main_loop_without_presses.
  assert (Hf : frames s = frames s') by exact (f_equal frames E).
  assert (Hh : hover_idx s = hover_idx s') by exact (f_equal hover_idx E).
  assert (Hr : running s = running s') by exact (f_equal running E).
  assert (Ha : app s = app s') by exact (f_equal app E).
  assert (Hc : exit_code s = exit_code s') by exact (f_equal exit_code E).
  assert (Ho : stdout s = stdout s') by exact (f_equal stdout E).
  repeat split; try assumption.
  unfold main. destruct (Nat.eqb _ 0); [reflexivity |].
  fold s s'. now rewrite Hc, Ho.
Qed.

(** X4.  Nothing is selected without a release of the primary button: when
    no such event is delivered the program exits with status 1 and writes
    nothing, whatever else happens. *)
Theorem no_selection_without_primary_release
  (a : App) (evs : list xcb_event) :
  Forall (fun ev => is_primary_release ev = false) evs ->
  main entries a evs = (1, EmptyString) /\
  phase (main_loop entries evs (session_start a)) <> Selected.
Proof.
  intros Hall.
  assert (H : forall s, exit_code s = 1 -> stdout s = EmptyString ->
            exit_code (main_loop entries evs s) = 1 /\
            stdout (main_loop entries evs s) = EmptyString).
  { induction Hall as [| ev evs Hev Hall IH]; intros s Hc Ho; simpl.
    - now split.
    - destruct (running s); [| now split].
      apply IH;
        destruct ev as [| x y | d x y | d x y | d | w h | t d0 | r];
        unfold handle_event; simpl in Hev; try rewrite Hev;
        try assumption;
        repeat match goal with
               | |- context [if ?b then _ else _] => destruct b
               end; first [assumption | reflexivity]. }
  destruct (H (session_start a) eq_refl eq_refl) as [Hc Ho].
  split.
  - unfold main. destruct (Nat.eqb _ 0); [reflexivity |]. now rewrite Hc, Ho.
  - unfold phase. rewrite Hc. destruct (running _); discriminate.
Qed.

End LoopOutcome.

Lemma no_selection_without_primary_release_witness :
  main demo_entries demo_app
    [XCB_MOTION_NOTIFY 10 10; XCB_BUTTON_PRESS 1 10 10;
     XCB_BUTTON_RELEASE 3 10 10; XCB_KEY_PRESS 65]
  = (1, EmptyString).
Proof.
  apply (no_selection_without_primary_release demo_entries demo_app).
  repeat constructor.
Defined.

(** ** Debug flag and visual lookup *)

(** X5.  The [DEBUG] variable is read once.  The first call of
    [dbg_enabled] answers true exactly when the variable is set to a text
    other than the empty one and [0]; every later call gives the same answer
    whatever the variable has become. *)
Theorem dbg_enabled_reads_once
  (env : option string) (later : list (option string)) :
  let first := Debug.dbg_enabled Debug.flags_start env in
  (fst first = true <->
   exists d, env = Some d /\ d <> EmptyString /\ d <> "0"%string) /\
  Forall (fun env' => Debug.dbg_enabled (snd first) env' = first) later /\
  forall env' env'',
    Debug.dbg_enabled (snd (Debug.dbg_enabled (snd first) env')) env''
    = first.
Proof.
  intros first. split; [| split].
  - unfold first, Debug.dbg_enabled; simpl.
    destruct env as [d |]; simpl.
    + rewrite andb_true_iff, !negb_true_iff.
      split.
      * intros [H1 H2]. exists d.
        apply String.eqb_neq in H1, H2. now repeat split.
      * intros (d' & E & H1 & H2). injection E as <-.
        split; now apply String.eqb_neq.
    + split; [discriminate | intros (d & E & _); discriminate].
  - apply Forall_forall. intros env' _.
    unfold first, Debug.dbg_enabled; simpl. reflexivity.
  - intros env' env''. unfold first, Debug.dbg_enabled; simpl. reflexivity.
Qed.

Section VisualFacts.

Import Visuals.

Lemma find_in_depth_find (visuals : list xcb_visualtype_t) (vid : Z) :
  find_in_depth visuals vid = find (fun v => visual_id v =? vid) visuals.
Proof.
  induction visuals as [| v rest IH]; simpl; [reflexivity |].
  destruct (visual_id v =? vid); [reflexivity | exact IH].
Qed.

Lemma find_app_first {A : Type} (f : A -> bool) (l1 l2 : list A) :
  find f (l1 ++ l2)
  = match find f l1 with Some x => Some x | None => find f l2 end.
Proof.
  induction l1 as [| x l1 IH]; simpl; [reflexivity |].
  destruct (f x); [reflexivity | exact IH].
Qed.

(** X6.  [find_visualtype] returns the first visual with the wanted id in
    the order in which the two nested iterators visit the visuals; the
    visual it returns has that id, and it returns [NULL] exactly when no
    visual of any depth has it. *)
Theorem find_visualtype_first_match
  (depths : list (list xcb_visualtype_t)) (vid : Z) :
  find_visualtype depths vid
  = find (fun v => visual_id v =? vid) (List.concat depths) /\
  (forall v, find_visualtype depths vid = Some v ->
             visual_id v = vid /\ exists d, In d depths /\ In v d) /\
  (find_visualtype depths vid = None <->
   forall d v, In d depths -> In v d -> visual_id v <> vid).
Proof.
  assert (E : find_visualtype depths vid
              = find (fun v => visual_id v =? vid) (List.concat depths)).
  { induction depths as [| d rest IH]; simpl; [reflexivity |].
    rewrite find_app_first, find_in_depth_find, IH. reflexivity. }
  split; [exact E |]. rewrite E. split.
  - intros v Hv. apply find_some in Hv. destruct Hv as [Hin Hid].
    split; [now apply Z.eqb_eq |].
    apply in_concat in Hin. destruct Hin as (d & Hd & Hv). now exists d.
  - split.
    + intros Hnone d v Hd Hv Hid.
      assert (Hin : In v (List.concat depths))
        by (apply in_concat; now exists d).
      pose proof (find_none _ _ Hnone v Hin) as Hf. simpl in Hf.
      rewrite Hid, Z.eqb_refl in Hf. discriminate.
    + intros Hno.
      destruct (find _ (List.concat depths)) as [v |] eqn:Hf; [| reflexivity].
      apply find_some in Hf. destruct Hf as [Hin Hid].
      apply in_concat in Hin. destruct Hin as (d & Hd & Hv).
      apply Z.eqb_eq in Hid. elim (Hno d v Hd Hv Hid).
Qed.

End VisualFacts.

Lemma find_visualtype_first_match_witness :
  Visuals.find_visualtype
    [[Visuals.mkVisual 32 4 8]; [Visuals.mkVisual 33 4 8;
                                 Visuals.mkVisual 33 5 10]] 33
  = Some (Visuals.mkVisual 33 4 8) /\
  Visuals.visual_id (Visuals.mkVisual 33 4 8) = 33.
Proof.
  split; [reflexivity |].
  apply (find_visualtype_first_match
           [[Visuals.mkVisual 32 4 8]; [Visuals.mkVisual 33 4 8;
                                        Visuals.mkVisual 33 5 10]] 33).
  reflexivity.
Defined.

(** ** Reading the entries *)

Section InputFacts.

Import Input.

Local Open Scope string_scope.

Lemma append_nil_r (s : string) : s ++ "" = s.
Proof. induction s as [| c s IH]; simpl; [reflexivity | now rewrite IH]. Qed.

Lemma append_assoc (a b c : string) : (a ++ b) ++ c = a ++ (b ++ c).
Proof. induction a as [| x a IH]; simpl; [reflexivity | now rewrite IH]. Qed.

Lemma chars_append (a b : string) :
  list_ascii_of_string (a ++ b)
  = (list_ascii_of_string a ++ list_ascii_of_string b)%list.
Proof. induction a as [| x a IH]; simpl; [reflexivity | now rewrite IH]. Qed.

(** Trimming only removes characters from the end. *)
Lemma trim_eol_chars (s : string) (c : ascii) :
  In c (list_ascii_of_string (trim_eol s)) -> In c (list_ascii_of_string s).
Proof.
  induction s as [| x s IH]; simpl; [easy |].
  destruct (trim_eol s) as [| y t] eqn:E.
  - destruct (is_eol x); simpl; [easy | tauto].
  - simpl. intros [-> | H]; [now left | right; apply IH; exact H].
Qed.

Lemma trim_eol_all_eol (e : string) :
  (forall c, In c (list_ascii_of_string e) -> is_eol c = true) ->
  trim_eol e = "".
Proof.
  induction e as [| x e IH]; simpl; intros H; [reflexivity |].
  rewrite IH by (intros c Hc; apply H; now right).
  now rewrite (H x (or_introl eq_refl)).
Qed.

Lemma trim_eol_append_eol (s e : string) :
  (forall c, In c (list_ascii_of_string e) -> is_eol c = true) ->
  trim_eol (s ++ e) = trim_eol s.
Proof.
  intros He. induction s as [| x s IH]; simpl.
  - now apply trim_eol_all_eol.
  - now rewrite IH.
Qed.

(** A trimmed line does not end in a line feed or a carriage return. *)
Lemma trim_eol_last (s p : string) (c : ascii) :
  trim_eol s = p ++ String c "" -> is_eol c = false.
Proof.
  revert p. induction s as [| x s IH]; simpl; intros p E.
  - destruct p; discriminate.
  - destruct (trim_eol s) as [| y t] eqn:Et.
    + destruct (is_eol x) eqn:Ex.
      * destruct p; discriminate.
      * destruct p as [| z p]; simpl in E.
        -- now injection E as <-.
        -- injection E as _ E. destruct p; discriminate.
    + destruct p as [| z p]; simpl in E.
      * discriminate.
      * injection E as _ E. now apply (IH p).
Qed.

Lemma trim_eol_fixed (l : string) :
  (forall p c, l = p ++ String c "" -> is_eol c = false) ->
  trim_eol l = l.
Proof.
  induction l as [| x l IH]; intros H; simpl; [reflexivity |].
  destruct l as [| y l].
  - simpl. now rewrite (H "" x eq_refl).
  - rewrite IH.
    + reflexivity.
    + intros p c E. apply (H (String x p) c). simpl. now rewrite E.
Qed.

Lemma strndup_chars (s : string) (c : ascii) :
  In c (list_ascii_of_string (strndup s)) ->
  In c (list_ascii_of_string s) /\ is_char 0 c = false.
Proof.
  induction s as [| x s IH]; simpl; [easy |].
  destruct (is_char 0 x) eqn:E; simpl; [easy |].
  intros [<- | H]; [tauto |]. destruct (IH H). tauto.
Qed.

Lemma strndup_fixed (l : string) :
  (forall c, In c (list_ascii_of_string l) -> is_char 0 c = false) ->
  strndup l = l.
Proof.
  induction l as [| x l IH]; simpl; intros H; [reflexivity |].
  rewrite (H x (or_introl eq_refl)).
  rewrite IH; [reflexivity |]. intros c Hc; apply H; now right.
Qed.

(** Every result of [getline] is free of line feeds except for its last
    byte, and consists of bytes of the input. *)
Lemma getlines_from_lines (input cur line : string) :
  (forall c, In c (list_ascii_of_string cur) -> is_char 10 c = false) ->
  In line (getlines_from cur input) ->
  exists body,
    (line = body \/ line = body ++ String (ascii_of_nat 10) "") /\
    forall c, In c (list_ascii_of_string body) ->
      is_char 10 c = false /\
      (In c (list_ascii_of_string cur) \/ In c (list_ascii_of_string input)).
Proof.
  revert cur. induction input as [| x input IH]; simpl; intros cur Hcur Hin.
  - destruct cur as [| y cur]; [easy |].
    destruct Hin as [<- | []]. exists (String y cur).
    split; [now left |]. intros c Hc. split; [now apply Hcur | now left].
  - destruct (is_char 10 x) eqn:Ex.
    + destruct Hin as [<- | Hin].
      * exists cur. split.
        -- right. f_equal. f_equal. unfold is_char in Ex.
           apply Nat.eqb_eq in Ex. rewrite <- Ex. now rewrite ascii_nat_embedding.
        -- intros c Hc. split; [now apply Hcur | now left].
      * destruct (IH "" ltac:(easy) Hin) as (body & Hb & Hc).
        exists body. split; [exact Hb |].
        intros c Hcb. destruct (Hc c Hcb) as [H1 [[] | H2]].
        split; [exact H1 | right; now right].
    + assert (Hcur' : forall c, In c (list_ascii_of_string (cur ++ String x ""))
                        -> is_char 10 c = false).
      { intros c. rewrite chars_append, in_app_iff; simpl.
        intros [H | [<- | []]]; [now apply Hcur | exact Ex]. }
      destruct (IH _ Hcur' Hin) as (body & Hb & Hc).
      exists body. split; [exact Hb |].
      intros c Hcb. destruct (Hc c Hcb) as [H1 H2].
      split; [exact H1 |].
      rewrite chars_append, in_app_iff in H2; simpl in H2. tauto.
Qed.

(** The lines of a text made of one line-feed-free piece, a line feed and
    a rest. *)
Lemma getlines_from_line (l rest cur : string) :
  (forall c, In c (list_ascii_of_string l) -> is_char 10 c = false) ->
  getlines_from cur (l ++ String (ascii_of_nat 10) rest)
  = (cur ++ l ++ String (ascii_of_nat 10) "") :: getlines_from "" rest.
Proof.
  revert cur. induction l as [| x l IH]; simpl; intros cur Hl.
  - reflexivity.
  - rewrite (Hl x (or_introl eq_refl)).
    rewrite IH by (intros c Hc; apply Hl; now right).
    now rewrite append_assoc.
Qed.

(** The invariant of the array: no entry yet and no array, or at least as
    many slots as entries and fewer than twice as many once the array has
    grown beyond its first 8 slots. *)
Lemma read_line_capacity (st : Entries) (line : string) :
  let count := Z.of_nat (List.length (texts st)) in
  (count = 0 /\ cap st = 0) \/
  (1 <= count <= cap st /\ (cap st = 8 \/ cap st < 2 * count)) ->
  exists st',
    read_line st line = Some st' /\
    (let count' := Z.of_nat (List.length (texts st')) in
     (count' = 0 /\ cap st' = 0) \/
     (1 <= count' <= cap st' /\ (cap st' = 8 \/ cap st' < 2 * count'))) /\
    texts st'
    = (texts st ++
       (if Nat.eqb (String.length (trim_eol line)) 0 then []
        else [strndup (trim_eol line)]))%list.
Proof.
  intros count Hinv. unfold read_line.
  destruct (Nat.eqb (String.length (trim_eol line)) 0).
  - exists st. split; [reflexivity |]. split; [exact Hinv |].
    now rewrite app_nil_r.
  - fold count.
    destruct (Z.eqb_spec count (cap st)) as [E | E].
    + destruct (Z.eqb_spec (cap st) 0) as [E0 | E0].
      * destruct (Z.ltb_spec count 8) as [Hlt | Hge]; [| lia].
        eexists. split; [reflexivity |]. split; [| reflexivity].
        right. cbn [cap texts]. rewrite length_app, Nat2Z.inj_add.
        change (Z.of_nat (List.length [strndup (trim_eol line)])) with 1.
        fold count. lia.
      * destruct (Z.ltb_spec count (cap st * 2)) as [Hlt | Hge]; [| lia].
        eexists. split; [reflexivity |]. split; [| reflexivity].
        right. cbn [cap texts]. rewrite length_app, Nat2Z.inj_add.
        change (Z.of_nat (List.length [strndup (trim_eol line)])) with 1.
        fold count. lia.
    + destruct (Z.ltb_spec count (cap st)) as [Hlt | Hge]; [| lia].
      eexists. split; [reflexivity |]. split; [| reflexivity].
      right. cbn [cap texts]. rewrite length_app, Nat2Z.inj_add.
      change (Z.of_nat (List.length [strndup (trim_eol line)])) with 1.
      fold count. lia.
Qed.

Lemma read_lines_capacity (lines : list string) :
  forall st : Entries,
    (let count := Z.of_nat (List.length (texts st)) in
     (count = 0 /\ cap st = 0) \/
     (1 <= count <= cap st /\ (cap st = 8 \/ cap st < 2 * count))) ->
    exists st',
      read_lines st lines = Some st' /\
      (let count' := Z.of_nat (List.length (texts st')) in
       (count' = 0 /\ cap st' = 0) \/
       (1 <= count' <= cap st' /\ (cap st' = 8 \/ cap st' < 2 * count'))) /\
      texts st'
      = (texts st ++
         map strndup
           (filter (fun t => negb (Nat.eqb (String.length t) 0))
                   (map trim_eol lines)))%list.
Proof.
  induction lines as [| line lines IH]; intros st Hinv; simpl.
  - exists st. split; [reflexivity |]. split; [exact Hinv |].
    now rewrite app_nil_r.
  - destruct (read_line_capacity st line Hinv) as (st1 & E1 & I1 & T1).
    rewrite E1.
    destruct (IH st1 I1) as (st2 & E2 & I2 & T2).
    exists st2. split; [exact E2 |]. split; [exact I2 |].
    rewrite T2, T1.
    destruct (Nat.eqb (String.length (trim_eol line)) 0); simpl.
    + now rewrite app_nil_r.
    + now rewrite <- app_assoc.
Qed.

End InputFacts.

Section ReadingEntries.

Import Input.

Local Open Scope string_scope.

Lemma read_entries_texts (input : string) :
  exists st,
    read_entries input = Some st /\
    (let count := Z.of_nat (List.length (texts st)) in
     (count = 0 /\ cap st = 0) \/
     (1 <= count <= cap st /\ (cap st = 8 \/ cap st < 2 * count))) /\
    texts st
    = map strndup
        (filter (fun t => negb (Nat.eqb (String.length t) 0))
                (map trim_eol (getlines input))).
Proof.
  unfold read_entries.
  destruct (read_lines_capacity (getlines input) (mkEntries 0 []))
    as (st & E & I & T).
  - left. split; reflexivity.
  - exists st. split; [exact E |]. split; [exact I | exact T].
Qed.

(** An entry comes from a line of the input. *)
Lemma entry_origin (input : string) (st : Entries) (e : string) :
  read_entries input = Some st -> In e (texts st) ->
  exists body,
    e = strndup (trim_eol body) /\ trim_eol body <> "" /\
    forall c, In c (list_ascii_of_string body) ->
      is_char 10 c = false /\ In c (list_ascii_of_string input).
Proof.
  intros Hr He.
  destruct (read_entries_texts input) as (st' & E & _ & T).
  rewrite Hr in E. injection E as <-.
  rewrite T in He. apply in_map_iff in He.
  destruct He as (t & <- & Ht).
  apply filter_In in Ht. destruct Ht as [Ht Hlen].
  apply in_map_iff in Ht. destruct Ht as (line & <- & Hline).
  destruct (getlines_from_lines input "" line ltac:(easy) Hline)
    as (body & Hb & Hc).
  assert (Et : trim_eol line = trim_eol body).
  { destruct Hb as [-> | ->]; [reflexivity |].
    apply trim_eol_append_eol. intros c [<- | []]. reflexivity. }
  exists body. rewrite Et in *. split; [reflexivity |]. split.
  - intros E0. rewrite E0 in Hlen. discriminate.
  - intros c Hcb. destruct (Hc c Hcb) as [H1 [[] | H2]]. now split.
Qed.

(** X7.  Reading the entries never stores outside the array.  At the end
    the array is absent when there is no entry; otherwise it has at least
    as many slots as entries, and it has 8 slots or fewer than twice as
    many slots as entries. *)
Theorem read_entries_within_capacity (input : string) :
  exists st,
    read_entries input = Some st /\
    let count := Z.of_nat (List.length (texts st)) in
    (count = 0 /\ cap st = 0) \/
    (1 <= count <= cap st /\ (cap st = 8 \/ cap st < 2 * count)).
Proof.
  destruct (read_entries_texts input) as (st & E & I & _).
  exists st. split; [exact E | exact I].
Qed.

(** X8.  No entry contains a line feed or a NUL byte, whatever the bytes
    of the input are: the line written for a selection is one line. *)
Theorem entries_are_single_lines (input : string) (st : Entries) :
  read_entries input = Some st ->
  forall e c,
    In e (texts st) -> In c (list_ascii_of_string e) ->
    is_char 10 c = false /\ is_char 0 c = false.
Proof.
  intros Hr e c He Hc.
  destruct (entry_origin input st e Hr He) as (body & -> & _ & Hb).
  apply strndup_chars in Hc. destruct Hc as [Hc H0].
  split; [| exact H0].
  apply trim_eol_chars in Hc. now apply Hb.
Qed.

(** Without NUL bytes in the input, an entry is a trimmed line of it. *)
Lemma entry_is_trimmed_line (input : string) (st : Entries) (e : string) :
  (forall c, In c (list_ascii_of_string input) -> is_char 0 c = false) ->
  read_entries input = Some st ->
  In e (texts st) ->
  exists line,
    In line (getlines input) /\ e = trim_eol line /\ trim_eol line <> "".
Proof.
  intros Hnul Hr He.
  destruct (read_entries_texts input) as (st' & E & _ & T).
  rewrite Hr in E. injection E as <-.
  rewrite T in He. apply in_map_iff in He.
  destruct He as (t & <- & Ht).
  apply filter_In in Ht. destruct Ht as [Ht Hlen].
  apply in_map_iff in Ht. destruct Ht as (line & <- & Hline).
  assert (Hfix : strndup (trim_eol line) = trim_eol line).
  { apply strndup_fixed. intros c Hc. apply trim_eol_chars in Hc.
    destruct (getlines_from_lines input "" line ltac:(easy) Hline)
      as (body & Hb & Hbody).
    destruct Hb as [-> | ->].
    - destruct (Hbody c Hc) as [_ [[] | Hin]]. now apply Hnul.
    - rewrite chars_append, in_app_iff in Hc. destruct Hc as [Hc | Hc].
      + destruct (Hbody c Hc) as [_ [[] | Hin]]. now apply Hnul.
      + destruct Hc as [<- | []]. reflexivity. }
  exists line. split; [exact Hline |]. split; [exact Hfix |].
  intros E0. rewrite E0 in Hlen. discriminate.
Qed.

(** X9.  When the input has no NUL byte, every entry is a line of the
    input without its trailing line feeds and carriage returns: it is not
    empty and does not end in a line feed or a carriage return. *)
Theorem entries_are_trimmed_lines (input : string) (st : Entries) :
  (forall c, In c (list_ascii_of_string input) -> is_char 0 c = false) ->
  read_entries input = Some st ->
  forall e,
    In e (texts st) ->
    e <> "" /\
    (forall p c, e = p ++ String c "" -> is_eol c = false) /\
    exists line, In line (getlines input) /\ e = trim_eol line.
Proof.
  intros Hnul Hr e He.
  destruct (entry_is_trimmed_line input st e Hnul Hr He)
    as (line & Hline & -> & Hne).
  split; [exact Hne |]. split.
  - intros p c Ep. now apply (trim_eol_last line p c).
  - now exists line.
Qed.

Lemma entries_are_trimmed_lines_witness :
  exists st,
    read_entries ("One" ++ CRLF ++ LF ++ "Two" ++ LF) = Some st /\
    forall e, In e (texts st) -> e <> "".
Proof.
  exists (mkEntries 8 ["One"; "Two"]). split; [reflexivity |].
  intros e He.
  apply (entries_are_trimmed_lines ("One" ++ CRLF ++ LF ++ "Two" ++ LF)
           (mkEntries 8 ["One"; "Two"])); [| reflexivity | exact He].
  intros c Hc. simpl in Hc.
  repeat (destruct Hc as [<- | Hc]; [reflexivity |]). destruct Hc.
Defined.

Lemma clean_label_read (l : string) :
  clean_label l ->
  trim_eol l = l /\ strndup l = l /\
  Nat.eqb (String.length l) 0 = false /\
  forall c, In c (list_ascii_of_string l) -> is_char 10 c = false.
Proof.
  intros (Hne & Hchars & Hlast).
  assert (Hlf : forall c, In c (list_ascii_of_string l) -> is_char 10 c = false)
    by (intros c Hc; apply (Hchars c Hc)).
  split; [| split; [| split]].
  - apply trim_eol_fixed. intros p c E.
    unfold is_eol. rewrite (Hlast p c E), orb_false_r.
    apply Hlf. rewrite E, chars_append, in_app_iff. right. now left.
  - apply strndup_fixed. intros c Hc. apply (Hchars c Hc).
  - destruct l; [now elim Hne | reflexivity].
  - exact Hlf.
Qed.

Lemma getlines_lines_text (eol : string) (labels : list string) :
  eol = LF \/ eol = CRLF ->
  Forall clean_label labels ->
  getlines (lines_text eol labels) = map (fun l => l ++ eol) labels.
Proof.
  intros Heol Hall. unfold getlines.
  induction Hall as [| l labels Hl Hall IH]; simpl; [reflexivity |].
  destruct (clean_label_read l Hl) as (_ & _ & _ & Hlf).
  destruct Heol as [-> | ->].
  - unfold LF at 1. simpl.
    rewrite getlines_from_line by exact Hlf. simpl.
    f_equal. apply IH.
  - unfold CRLF at 1, LF at 1. simpl.
    change (l ++ String (ascii_of_nat 13)
                   (String (ascii_of_nat 10) (lines_text CRLF labels)))
      with (l ++ (String (ascii_of_nat 13) "")
              ++ String (ascii_of_nat 10) (lines_text CRLF labels)).
    rewrite <- append_assoc.
    rewrite getlines_from_line.
    + simpl. f_equal; [| apply IH].
      rewrite append_assoc. reflexivity.
    + intros c. rewrite chars_append, in_app_iff.
      intros [Hc | [<- | []]]; [now apply Hlf | reflexivity].
Qed.

(** X10.  Reading gives back the labels it was written from: for labels
    that are not empty, have no line feed and no NUL byte and do not end in
    a carriage return, the text with one label per line, each line ended
    by a line feed or each by carriage return and line feed, is read as
    exactly these labels, in order. *)
Theorem read_entries_round_trip (eol : string) (labels : list string) :
  eol = LF \/ eol = CRLF ->
  Forall clean_label labels ->
  exists st,
    read_entries (lines_text eol labels) = Some st /\ texts st = labels.
Proof.
  intros Heol Hall.
  destruct (read_entries_texts (lines_text eol labels)) as (st & E & _ & T).
  exists st. split; [exact E |].
  rewrite T, (getlines_lines_text eol labels Heol Hall).
  clear E T. induction Hall as [| l labels Hl Hall IH]; simpl; [reflexivity |].
  destruct (clean_label_read l Hl) as (Ht & Hs & Hlen & _).
  assert (Etrim : trim_eol (l ++ eol) = l).
  { rewrite trim_eol_append_eol; [exact Ht |].
    destruct Heol as [-> | ->]; intros c Hc; simpl in Hc.
    - destruct Hc as [<- | []]. reflexivity.
    - destruct Hc as [<- | [<- | []]]; reflexivity. }
  rewrite Etrim, Hlen. simpl. rewrite Hs. f_equal. exact IH.
Qed.

Lemma read_entries_round_trip_witness :
  exists st,
    read_entries (lines_text CRLF demo_entries) = Some st /\
    texts st = demo_entries.
Proof.
  apply (read_entries_round_trip CRLF demo_entries); [now right |].
  assert (H : forall l,
            l <> "" ->
            (forall c, In c (list_ascii_of_string l) ->
               is_char 10 c = false /\ is_char 0 c = false /\
               is_char 13 c = false) ->
            clean_label l).
  { intros l Hne Hc. split; [exact Hne |]. split.
    - intros c Hin. destruct (Hc c Hin) as (H1 & H2 & _). now split.
    - intros p c E. apply Hc.
      rewrite E, chars_append, in_app_iff. right. now left. }
  unfold demo_entries.
  repeat (apply Forall_cons; [| try apply Forall_nil]);
    apply H; try discriminate;
    intros c Hc; simpl in Hc;
    repeat (destruct Hc as [<- | Hc]; [repeat split |]); destruct Hc.
Defined.

End ReadingEntries.

(** ** Colours *)

Section ColourFacts.

Import Colour.

Local Open Scope R_scope.

(** The hue after [fmod] and the correction of a negative remainder. *)
Lemma hue_range (h : double) :
  let m := fmod h 1.0 in
  0 <= (if dlt m 0 then m + 1.0 else m) < 1.
Proof.
  intros m.
  assert (Hm : (0 <= h -> 0 <= m < 1) /\ (h < 0 -> -1 < m <= 0)).
  { unfold m, fmod, trunc.
    replace (h / 1.0) with h by lra.
    destruct (Rle_dec 0 h) as [Hh | Hh].
    - pose proof (base_Int_part h). split; intros; lra.
    - pose proof (base_Int_part (- h)). rewrite opp_IZR.
      split; intros; lra. }
  destruct (dlt m 0) eqn:E.
  - apply dlt_true in E. destruct (Rle_dec 0 h); lra.
  - apply dlt_false in E. destruct (Rle_dec 0 h); lra.
Qed.

(** The sector of the colour wheel: one of the six cases applies. *)
Lemma hue_sector (x : double) :
  0 <= x < 1 ->
  let i := floor (x * 6.0) in
  (0 <= i <= 5)%Z /\ Z.rem i 6 = i /\ 0 <= x * 6.0 - IZR i < 1.
Proof.
  intros Hx i.
  pose proof (floor_bounds (x * 6.0)) as Hf. fold i in Hf.
  assert (Hi : (0 <= i <= 5)%Z).
  { split.
    - assert ((-1 < i)%Z) by (apply lt_IZR; lra). lia.
    - assert ((i < 6)%Z) by (apply lt_IZR; lra). lia. }
  split; [exact Hi |]. split; [| lra].
  apply Z.rem_small. lia.
Qed.

(** X11.  For a saturation in (0, 1] and a value [v >= 0], the colour
    that [hsv_to_rgb] computes has its largest channel equal to [v] and its
    smallest equal to [v * (1 - s)], for every hue, negative hues and hues
    beyond 1 included; the previous contents of the outputs are never kept.
    For a saturation [s <= 0] the three channels equal [v]. *)
Theorem hsv_to_rgb_channels (h s v : double) (rgb0 : RGB) :
  let c := hsv_to_rgb h s v rgb0 in
  (s <= 0 -> c = mkRGB v v v) /\
  (0 < s <= 1 -> 0 <= v ->
   Rmax (red c) (Rmax (green c) (blue c)) = v /\
   Rmin (red c) (Rmin (green c) (blue c)) = v * (1 - s)).
Proof.
  intros c. split.
  - intros Hs. unfold c, hsv_to_rgb.
    replace 0.0 with 0 by lra.
    destruct (dle s 0) eqn:E; [reflexivity |].
    apply dle_false in E. lra.
  - intros Hs Hv. unfold c, hsv_to_rgb.
    replace 0.0 with 0 by lra.
    destruct (dle s 0) eqn:E; [apply dle_true in E; lra | clear E].
    cbv zeta.
    pose proof (hue_range h) as Hh. cbv zeta in Hh.
    set (x := if dlt (fmod h 1.0) 0 then fmod h 1.0 + 1.0 else fmod h 1.0)
      in *.
    destruct (hue_sector x Hh) as (Hi & Hrem & Hf).
    rewrite Hrem.
    set (i := floor (x * 6.0)) in *.
    set (f := x * 6.0 - IZR i) in *.
    replace 1.0 with 1 by lra.
    set (p := v * (1 - s)).
    set (q := v * (1 - s * f)).
    set (t := v * (1 - s * (1 - f))).
    assert (Hvs : 0 <= v * s) by (apply Rmult_le_pos; lra).
    assert (Hvsf : 0 <= v * s * f) by (apply Rmult_le_pos; lra).
    assert (Hvsf' : 0 <= v * s * (1 - f)) by (apply Rmult_le_pos; lra).
    assert (Hq : p <= q <= v) by (unfold p, q; split; lra).
    assert (Ht : p <= t <= v) by (unfold p, t; split; lra).
    assert (Hp : p <= v) by lra.
    assert (Hcases : (i = 0 \/ i = 1 \/ i = 2 \/ i = 3 \/ i = 4 \/ i = 5)%Z)
      by lia.
    assert (Hps : p = v * (1 - s)) by reflexivity.
    clearbody p q t. clear Hf. clearbody f. clear Hi Hrem. clearbody i.
    destruct Hcases as [-> | [-> | [-> | [-> | [-> | ->]]]]]; simpl;
      unfold Rmax, Rmin; repeat destruct (Rle_dec _ _); split; lra.
Qed.

Lemma hsv_to_rgb_channels_witness :
  let c := hsv_to_rgb (-0.25) 0.55 0.85 (mkRGB 0 0 0) in
  Rmax (red c) (Rmax (green c) (blue c)) = 0.85.
Proof.
  apply (hsv_to_rgb_channels (-0.25) 0.55 0.85 (mkRGB 0 0 0)); lra.
Defined.

(** For a saturation in (0, 1), each channel grows strictly with the
    value. *)
Lemma hsv_to_rgb_brighter (h s v v' : double) (rgb0 rgb0' : RGB) :
  0 < s < 1 -> v < v' ->
  let c := hsv_to_rgb h s v rgb0 in
  let c' := hsv_to_rgb h s v' rgb0' in
  red c < red c' /\ green c < green c' /\ blue c < blue c'.
Proof.
  intros Hs Hv. unfold hsv_to_rgb.
  replace 0.0 with 0 by lra.
  destruct (dle s 0) eqn:E; [apply dle_true in E; lra | clear E].
  cbv zeta.
  pose proof (hue_range h) as Hh. cbv zeta in Hh.
  set (x := if dlt (fmod h 1.0) 0 then fmod h 1.0 + 1.0 else fmod h 1.0)
    in *.
  destruct (hue_sector x Hh) as (Hi & Hrem & Hf).
  rewrite Hrem.
  set (i := floor (x * 6.0)) in *.
  set (f := x * 6.0 - IZR i) in *.
  replace 1.0 with 1 by lra.
  assert (Hp : v * (1 - s) < v' * (1 - s)) by nra.
  assert (Hq : v * (1 - s * f) < v' * (1 - s * f)).
  { apply Rmult_lt_compat_r; [nra | exact Hv]. }
  assert (Ht : v * (1 - s * (1 - f)) < v' * (1 - s * (1 - f))).
  { apply Rmult_lt_compat_r; [nra | exact Hv]. }
  assert (Hcases : (i = 0 \/ i = 1 \/ i = 2 \/ i = 3 \/ i = 4 \/ i = 5)%Z)
    by lia.
  destruct Hcases as [-> | [-> | [-> | [-> | [-> | ->]]]]]; simpl;
    repeat split; assumption.
Qed.

(** X12.  The hovered wedge is drawn brighter: in each of the three
    channels the fill colour of a wedge is strictly larger when the wedge
    is the hovered one than when it is not. *)
Theorem hovered_wedge_is_brighter (n i hover_idx : Z) (rgb0 rgb0' : RGB) :
  (i <> hover_idx)%Z ->
  let plain := wedge_fill n i hover_idx rgb0 in
  let lit := wedge_fill n i i rgb0' in
  red plain < red lit /\ green plain < green lit /\ blue plain < blue lit.
Proof.
  intros Hi. unfold wedge_fill.
  rewrite Z.eqb_refl.
  apply Z.eqb_neq in Hi. rewrite Hi.
  apply hsv_to_rgb_brighter; lra.
Qed.

Lemma hovered_wedge_is_brighter_witness :
  red (wedge_fill 3 1 0 (mkRGB 0 0 0)) < red (wedge_fill 3 1 1 (mkRGB 0 0 0)).
Proof.
  apply (hovered_wedge_is_brighter 3 1 0 (mkRGB 0 0 0) (mkRGB 0 0 0)).
  discriminate.
Defined.

End ColourFacts.

(** ** More on hit testing *)

Section DirectionFacts.

Local Open Scope R_scope.


End DirectionFacts.



Lemma entries_are_single_lines_witness :
  Input.is_char 10 "T"%char = false /\ Input.is_char 0 "T"%char = false.
Proof.
  apply (entries_are_single_lines
           (String.append "One" (String.append CRLF
              (String.append LF (String.append "Two" LF))))
           (Input.mkEntries 8 ["One"%string; "Two"%string])
           eq_refl "Two"%string "T"%char).
  - right; left; reflexivity.
  - left; reflexivity.
Defined.

(** ** The program as a whole *)

Section ProgramFacts.

Import Input.

Local Open Scope string_scope.

(** X18.  Started without the help option on an input without NUL bytes,
    the program ends with exit status 1 and an empty standard output, or
    with exit status 0 and one line on standard output: a line of the
    input without its trailing line feeds and carriage returns, which is
    not empty, followed by a line feed.  On an input of blank lines only it
    ends with exit status 1, and with the help option it ends with exit
    status 0; in both cases it writes nothing to standard output. *)
Theorem piewin_outcome
  (argv : list string) (stdin_text : string)
  (a : App) (evs : list xcb_event) :
  (Program.wants_help argv = true ->
   Program.piewin argv stdin_text a evs = Some (0, "")) /\
  (Program.wants_help argv = false ->
   (forall c, In c (list_ascii_of_string stdin_text) -> is_eol c = true) ->
   Program.piewin argv stdin_text a evs = Some (1, "")) /\
  (Program.wants_help argv = false ->
   (forall c, In c (list_ascii_of_string stdin_text) ->
              is_char 0 c = false) ->
   Program.piewin argv stdin_text a evs = Some (1, "") \/
   exists line,
     In line (getlines stdin_text) /\ trim_eol line <> "" /\
     Program.piewin argv stdin_text a evs = Some (0, trim_eol line ++ LF)).
Proof.
  unfold Program.piewin.
  destruct (read_entries_texts stdin_text) as (st & E & _ & T).
  rewrite E.
  split; [| split].
  - intros ->. reflexivity.
  - intros -> Hblank.
    assert (Hnil : texts st = []).
    { rewrite T.
      assert (Hall : forall line, In line (getlines stdin_text) ->
                trim_eol line = "").
      { intros line Hline. apply trim_eol_all_eol. intros c Hc.
        destruct (getlines_from_lines stdin_text "" line ltac:(easy) Hline)
          as (body & Hb & Hbody).
        assert (Hbc : forall c', In c' (list_ascii_of_string body) ->
                        is_eol c' = true).
        { intros c' Hc'. destruct (Hbody c' Hc') as [_ [[] | Hin]].
          now apply Hblank. }
        destruct Hb as [-> | ->]; [now apply Hbc |].
        rewrite chars_append, in_app_iff in Hc.
        destruct Hc as [Hc | [<- | []]]; [now apply Hbc | reflexivity]. }
      revert Hall. generalize (getlines stdin_text).
      intros lines. induction lines as [| line lines IH]; intros Hall; simpl;
        [reflexivity |].
      rewrite (Hall line (or_introl eq_refl)). simpl.
      apply IH. intros l Hl. apply Hall. now right. }
    rewrite Hnil. reflexivity.
  - intros -> Hnul.
    unfold main. destruct (Nat.eqb _ 0); [now left |].
    destruct (main_loop_outcome (texts st) a evs)
      as [[Hc Ho] | (_ & label & Hin & Hc & Ho)].
    + left. now rewrite Hc, Ho.
    + right.
      destruct (entry_is_trimmed_line stdin_text st label Hnul E Hin)
        as (line & Hline & -> & Hne).
      exists line. split; [exact Hline |]. split; [exact Hne |].
      now rewrite Hc, Ho.
Qed.

Lemma piewin_outcome_witness :
  Program.piewin ["piewin"; "--help"] "One" demo_app [] = Some (0, "") /\
  Program.piewin ["piewin"] (CRLF ++ LF) demo_app [XCB_EXPOSE]
  = Some (1, "").
Proof.
  split.
  - apply (piewin_outcome ["piewin"; "--help"] "One" demo_app []).
    reflexivity.
  - apply (piewin_outcome ["piewin"] (CRLF ++ LF) demo_app [XCB_EXPOSE]).
    + reflexivity.
    + intros c Hc. simpl in Hc.
      repeat (destruct Hc as [<- | Hc]; [reflexivity |]). destruct Hc.
Defined.

End ProgramFacts.

(** ** Properties of the geometry helpers in binary64 *)

Section FloatFacts.

Lemma SFleb_trans (a b c : spec_float) :
  SFleb a b = true -> SFleb b c = true -> SFleb a c = true.
Proof.
  unfold SFleb.
  destruct a as [sa | sa | | sa ma ea], b as [sb | sb | | sb mb eb],
           c as [sc | sc | | sc mc ec];
    try destruct sa; try destruct sb; try destruct sc; simpl;
    try discriminate; try reflexivity;
    repeat match goal with
           | |- context [Z.compare ?x ?y] =>
               destruct (Z.compare_spec x y); subst
           end; simpl; try discriminate; try reflexivity; try lia;
    rewrite ?Z.compare_refl;
    change (Pos.compare_cont Eq) with Pos.compare;
    repeat match goal with
           | |- context [Pos.compare ?x ?y] =>
               destruct (Pos.compare_spec x y); subst
           end; simpl; try discriminate; try reflexivity; try lia.
Qed.

(** The order of the doubles is transitive. *)
Lemma leb_trans (x y z : float) :
  (x <=? y)%float = true -> (y <=? z)%float = true ->
  (x <=? z)%float = true.
Proof. rewrite !leb_spec. apply SFleb_trans. Qed.

Lemma powerRZ_2_pos (e : Z) : 0 <= e -> powerRZ 2 e = IZR (2 ^ e).
Proof.
  intros He. destruct e as [| p | p]; simpl; [reflexivity | | lia].
  rewrite pow_IZR. f_equal. now rewrite positive_nat_Z.
Qed.

Lemma powerRZ_2_neg (e : Z) : e < 0 -> powerRZ 2 e = (/ IZR (2 ^ (- e)))%R.
Proof.
  intros He. destruct e as [| p | p]; simpl; [lia | lia |].
  rewrite pow_IZR. f_equal. f_equal. now rewrite positive_nat_Z.
Qed.

(** A finite double is a zero or a number. *)
Lemma is_finite_Prim2SF (d : float) :
  is_finite d = true ->
  Prim2SF d <> S754_nan /\ forall sg, Prim2SF d <> S754_infinity sg.
Proof.
  intros Hfin. unfold is_finite in Hfin. unfold Prim2SF.
  destruct (is_nan d); [discriminate |].
  destruct (is_zero d); [split; [| intros sg]; discriminate |].
  destruct (is_infinity d); [discriminate |].
  destruct (FloatOps.Z.frexp d) as [r ex].
  destruct (shr_fexp _ _ _ _ _) as [shr e'].
  destruct (shr_m shr); split; try intros sg; discriminate.
Qed.



(** [int_of_floor] is the floor of the number the double stands for,
    where that floor is an [int]. *)
Lemma int_of_floor_floor (d : float) :
  is_finite d = true ->
  (IZR Binary64.INT_MIN <= real_of d < IZR INT_MAX + 1)%R ->
  (IZR (Binary64.int_of_floor d) <= real_of d
   < IZR (Binary64.int_of_floor d) + 1)%R.
Proof.
  intros Hfin Hrange.
  pose proof (is_finite_Prim2SF d Hfin) as Hcls.
  unfold Binary64.int_of_floor, real_of in *.
  destruct (Prim2SF d) as [sg | sg | | sg m e];
    [simpl; lra | elim (proj2 Hcls sg); reflexivity
     | elim (proj1 Hcls); reflexivity |].
  set (v := if sg then Z.neg m else Z.pos m) in *.
  cbv zeta.
  assert (Hfloor : let f := if 0 <=? e then v * 2 ^ e else v / 2 ^ (- e) in
            (IZR f <= IZR v * powerRZ 2 e < IZR f + 1)%R).
  { cbv zeta. destruct (Z.leb_spec 0 e) as [He | He].
    - rewrite powerRZ_2_pos by exact He. rewrite <- mult_IZR. lra.
    - rewrite powerRZ_2_neg by exact He.
      set (k := 2 ^ (- e)).
      assert (Hk : 0 < k) by (apply Z.pow_pos_nonneg; lia).
      assert (Hk' : (0 < IZR k)%R) by now apply IZR_lt.
      pose proof (Z.div_mod v k ltac:(lia)) as Hdm.
      pose proof (Z.mod_pos_bound v k Hk) as Hm.
      assert (Ev : IZR v = (IZR k * IZR (v / k) + IZR (v mod k))%R).
      { rewrite <- mult_IZR, <- plus_IZR. now f_equal. }
      assert (Hm0 : (0 <= IZR (v mod k))%R) by (apply IZR_le; lia).
      assert (Hm1 : (IZR (v mod k) < IZR k)%R) by (apply IZR_lt; lia).
      split.
      + apply (Rmult_le_reg_r (IZR k)); [exact Hk' |].
        rewrite Rmult_assoc, Rinv_l by lra. nra.
      + apply (Rmult_lt_reg_r (IZR k)); [exact Hk' |].
        rewrite Rmult_assoc, Rinv_l by lra. nra. }
  cbv zeta in Hfloor.
  set (f := if 0 <=? e then v * 2 ^ e else v / 2 ^ (- e)) in *.
  assert (Hf : Binary64.INT_MIN <= f <= INT_MAX).
  { split.
    - assert (Binary64.INT_MIN - 1 < f) by (apply lt_IZR; rewrite minus_IZR; lra).
      lia.
    - assert (f < INT_MAX + 1) by (apply lt_IZR; rewrite plus_IZR; lra).
      lia. }
  destruct (Z.leb_spec Binary64.INT_MIN f); [| lia].
  destruct (Z.leb_spec f INT_MAX); [| lia].
  simpl. exact Hfloor.
Qed.

End FloatFacts.

(** *** Hit testing *)

(** C2.  [sector_index_from_point] returns -1 exactly when [n <= 0].  For
    [n >= 1], every canvas size and every point, inside the canvas or not
    and the centre included, and whatever [atan2] returns, the result is an
    index in [0, n-1]: the angle [atan2(y - H/2, x - W/2)], with [2*M_PI]
    added when it is negative, is divided by [2*M_PI/n] in binary64, the
    quotient is floored (to the floor of the number it stands for) and the
    integer is clamped into [0, n-1], which leaves an integer of that range
    as it is. *)
Theorem sector_index_from_point_range
  (atan2 : float -> float -> float) (n W H x y : Z) :
  let idx := Binary64.sector_index_from_point atan2 n W H x y in
  let cx := (Binary64.of_int W * 0.5)%float in
  let cy := (Binary64.of_int H * 0.5)%float in
  let a := atan2 (Binary64.of_int y - cy)%float
                 (Binary64.of_int x - cx)%float in
  let ang := if (a <? 0)%float then (a + 2.0 * Binary64.M_PI)%float else a in
  let step := ((2.0 * Binary64.M_PI) / Binary64.of_int n)%float in
  let q := Binary64.int_of_floor (ang / step)%float in
  (idx = -1 <-> n <= 0) /\
  (1 <= n ->
   0 <= idx <= n - 1 /\
   idx = Z.min (n - 1) (Z.max 0 q) /\
   (0 <= q <= n - 1 -> idx = q) /\
   (is_finite (ang / step)%float = true ->
    (IZR Binary64.INT_MIN <= real_of (ang / step)%float < IZR INT_MAX + 1)%R ->
    (IZR q <= real_of (ang / step)%float < IZR q + 1)%R)).
Proof.
  intros idx cx cy a ang step q.
  assert (Hdef : idx = if n <=? 0 then -1
                       else let i := if q <? 0 then 0 else q in
                            if i >=? n then n - 1 else i)
    by reflexivity.
  assert (Hpos : 1 <= n -> idx = Z.min (n - 1) (Z.max 0 q)).
  { intros Hn. rewrite Hdef.
    destruct (Z.leb_spec n 0); [lia |]. cbv zeta.
    destruct (Z.ltb_spec q 0).
    - destruct (Z.geb_spec 0 n); lia.
    - destruct (Z.geb_spec q n); lia. }
  split.
  - split.
    + intros Hm. destruct (Z_le_gt_dec n 0) as [Hle | Hgt]; [exact Hle |].
      rewrite Hpos in Hm by lia. lia.
    + intros Hle. rewrite Hdef. destruct (Z.leb_spec n 0); [reflexivity | lia].
  - intros Hn. rewrite (Hpos Hn).
    split; [lia |]. split; [reflexivity |]. split; [lia |].
    intros Hfin Hrange. now apply int_of_floor_floor.
Qed.

Lemma sector_index_from_point_range_witness :
  0 <= Binary64.sector_index_from_point (fun y x => y) 3 300 300 150 150
    <= 3 - 1.
Proof.
  apply (sector_index_from_point_range (fun y x => y) 3 300 300 150 150).
  lia.
Defined.

(** In binary64 the quotient at the left end of the horizontal line
    through the centre, [M_PI / (2*M_PI/50)], is just below 25: with 50
    wedges the point (50,150) of the 300x300 canvas is in wedge 24. *)
Example sector_index_binary64_left (atan2 : float -> float -> float) :
  atan2 0%float (-100)%float = Binary64.M_PI ->
  Binary64.sector_index_from_point atan2 50 300 300 50 150 = 24.
Proof.
  intros Ha. unfold Binary64.sector_index_from_point.
  change (50 <=? 0) with false. cbv iota zeta.
  replace (Binary64.of_int 150 - Binary64.of_int 300 * 0.5)%float
    with 0%float by reflexivity.
  replace (Binary64.of_int 50 - Binary64.of_int 300 * 0.5)%float
    with (-100)%float by reflexivity.
  rewrite Ha. vm_compute. reflexivity.
Qed.

(** On the positive x axis from the centre, where [atan2] returns 0, the
    binary64 hit test gives wedge 0, as the idealised one does. *)
Example sector_index_binary64_right (atan2 : float -> float -> float) :
  atan2 0%float 100%float = 0%float ->
  Binary64.sector_index_from_point atan2 3 300 300 250 150 = 0 /\
  sector_index_from_point 3 300 300 250 150 = 0.
Proof.
  intros Ha. split.
  - unfold Binary64.sector_index_from_point.
    change (3 <=? 0) with false. cbv iota zeta.
    replace (Binary64.of_int 150 - Binary64.of_int 300 * 0.5)%float
      with 0%float by reflexivity.
    replace (Binary64.of_int 250 - Binary64.of_int 300 * 0.5)%float
      with 100%float by reflexivity.
    rewrite Ha. vm_compute. reflexivity.
  - apply sector_index_east; lia.
Qed.

(** *** Font fitting *)

Section FitFacts.

Variable extents : float -> float * float.
Variables maxw maxh : float.

Lemma fits_true (s : float) :
  Binary64.fits extents maxw maxh s = true
  <-> (fst (extents s) <=? maxw)%float = true /\
      (snd (extents s) <=? maxh)%float = true.
Proof.
  unfold Binary64.fits. destruct (extents s) as [w h]; simpl.
  now rewrite andb_true_iff.
Qed.

(** The loop only ever moves [lo] to a size that fits. *)
Lemma fit_loop_lo_or_fits (iters : nat) :
  forall lo hi : float,
    Binary64.fit_loop extents maxw maxh iters lo hi = lo \/
    Binary64.fits extents maxw maxh
      (Binary64.fit_loop extents maxw maxh iters lo hi) = true.
Proof.
  induction iters as [| k IH]; intros lo hi; simpl; [now left |].
  destruct (Binary64.fits extents maxw maxh ((lo + hi) * 0.5)%float) eqn:E.
  - destruct (IH ((lo + hi) * 0.5)%float hi) as [-> | Hf];
      right; assumption.
  - apply IH.
Qed.

(** When every trial fits, [hi] never moves. *)
Lemma fit_loop_all_fit (iters : nat) :
  forall lo hi : float,
    (forall s, In s (trial_sizes iters lo hi) ->
               Binary64.fits extents maxw maxh s = true) ->
    Binary64.fit_loop extents maxw maxh iters lo hi
    = closest_size iters lo hi.
Proof.
  induction iters as [| k IH]; intros lo hi Hall; simpl; [reflexivity |].
  rewrite (Hall ((lo + hi) * 0.5)%float) by (simpl; now left).
  apply IH. intros s Hs. apply Hall. simpl. now right.
Qed.

End FitFacts.

Lemma square_extents_nondecreasing : nondecreasing square_extents.
Proof. intros s1 s2 Hs. simpl. now split. Qed.

Lemma step_extents_nondecreasing : nondecreasing step_extents.
Proof.
  intros s1 s2 Hs. unfold step_extents; simpl. split; [| reflexivity].
  destruct (s1 <=? 5)%float eqn:E1, (s2 <=? 5)%float eqn:E2;
    try reflexivity.
  rewrite (leb_trans s1 s2 5%float Hs E2) in E1. discriminate.
Qed.

(** The arithmetic of the twenty midpoints is exact for a bound that is a
    whole number of pixels. *)
Lemma pixel_box_exact_holds (k : Z) :
  1 <= k <= max_side -> pixel_box_exact k = true.
Proof.
  intros Hk.
  assert (Hall : forallb pixel_box_exact
                   (map Z.of_nat (seq 1 (Z.to_nat max_side))) = true)
    by (vm_compute; reflexivity).
  rewrite forallb_forall in Hall. apply Hall.
  rewrite in_map_iff. exists (Z.to_nat k). split; [lia |].
  apply in_seq. lia.
Qed.

Lemma pixel_box_real (k : Z) :
  1 <= k <= max_side ->
  real_of (closest_size 20 1%float (Binary64.of_int k))
  = (IZR k - (IZR k - 1) / 1048576)%R.
Proof.
  intros Hk. pose proof (pixel_box_exact_holds k Hk) as H.
  unfold pixel_box_exact in H. cbv zeta in H.
  apply andb_true_iff in H. destruct H as [_ H].
  unfold real_of.
  destruct (Prim2SF (closest_size 20 1%float (Binary64.of_int k)))
    as [sg | sg | | sg m e]; try discriminate.
  destruct sg; [discriminate |].
  apply andb_true_iff in H. destruct H as [He Hm].
  apply Z.leb_le in He. apply Z.eqb_eq in Hm.
  assert (E2 : 2 ^ (- e) = 2 ^ (- e - 20) * 1048576).
  { change 1048576 with (2 ^ 20). rewrite <- Z.pow_add_r by lia.
    f_equal. lia. }
  rewrite Hm, powerRZ_2_neg, E2 by lia.
  assert (Hp : 0 < 2 ^ (- e - 20)) by (apply Z.pow_pos_nonneg; lia).
  apply IZR_lt in Hp. set (p := 2 ^ (- e - 20)) in *.
  rewrite !mult_IZR, plus_IZR, mult_IZR. field. lra.
Qed.

(** C4, as the code has it.  For every box and every measurement,
    non-decreasing or not, [fit_font_size] returns the floor 1 or a trial
    size whose measured box fits, so that the result fits whenever the
    measurement at size 1 fits.  When each of the twenty midpoints towards
    the bound [hi = fmax(1, fmin(maxw, maxh))] fits, the result is the last
    of them.  For a non-decreasing measurement that fits at a bound of [k]
    pixels, [k] an integer from 1 to 4096, the arithmetic is exact: the
    result is the double that stands for [k - (k - 1) / 2^20]. *)
Theorem fit_font_size_floor_or_fits
  (extents : float -> float * float) (maxw maxh : float) :
  let size := Binary64.fit_font_size extents maxw maxh in
  let hi := Binary64.fmax 1 (Binary64.fmin maxw maxh) in
  let fits s := (fst (extents s) <=? maxw)%float = true /\
                (snd (extents s) <=? maxh)%float = true in
  (size = 1%float \/ fits size) /\
  (fits 1%float -> fits size) /\
  ((forall s, In s (trial_sizes 20 1%float hi) -> fits s) ->
   size = closest_size 20 1%float hi) /\
  (nondecreasing extents ->
   forall k : Z, 1 <= k <= max_side -> hi = Binary64.of_int k -> fits hi ->
   real_of size = (IZR k - (IZR k - 1) / 1048576)%R).
Proof.
  intros size hi fits.
  assert (Hor : size = 1%float \/
                Binary64.fits extents maxw maxh size = true)
    by apply fit_loop_lo_or_fits.
  assert (Hall : (forall s, In s (trial_sizes 20 1%float hi) -> fits s) ->
                 size = closest_size 20 1%float hi).
  { intros H. apply fit_loop_all_fit. intros s Hs.
    apply fits_true. now apply H. }
  split; [| split; [| split]].
  - destruct Hor as [E | Hf]; [now left | right; now apply fits_true].
  - intros H1. destruct Hor as [E | Hf]; [| now apply fits_true].
    rewrite E. exact H1.
  - exact Hall.
  - intros Hmono k Hk Ehi [Hw Hh].
    rewrite Hall.
    + rewrite Ehi. now apply pixel_box_real.
    + intros s Hs.
      pose proof (pixel_box_exact_holds k Hk) as Hex.
      unfold pixel_box_exact in Hex. cbv zeta in Hex.
      apply andb_true_iff in Hex. destruct Hex as [Hle _].
      rewrite forallb_forall in Hle. rewrite <- Ehi in Hle.
      destruct (Hmono s hi (Hle s Hs)) as [Mw Mh].
      split; eapply leb_trans; eassumption.
Qed.

Lemma fit_font_size_floor_or_fits_witness :
  (fst (square_extents (Binary64.fit_font_size square_extents 2 3))
   <=? 2)%float = true /\
  real_of (Binary64.fit_font_size square_extents 2 3)
  = (IZR 2 - (IZR 2 - 1) / 1048576)%R.
Proof.
  pose proof (fit_font_size_floor_or_fits square_extents 2 3) as H.
  cbv zeta in H. destruct H as [_ [Hfit [_ Hreal]]]. split.
  - apply Hfit. split; reflexivity.
  - apply (Hreal square_extents_nondecreasing 2).
    + unfold max_side. lia.
    + reflexivity.
    + split; reflexivity.
Defined.

(** C4, as claimed, fails.  For the non-decreasing measurement of a square
    glyph and the box 0.25 x 0.25 the result is the floor 1, whose measured
    box 1 x 1 does not fit; for the box scaled up to 0.5 x 0.5 the result
    is 1 again, not a larger size.  For the non-decreasing measurement
    that is 0 wide up to size 5 and 100 wide above, the box 16 x 16 gets a
    smaller size than the box 8 x 8. *)
Lemma fit_font_size_floor_does_not_fit :
  nondecreasing square_extents /\
  Binary64.fit_font_size square_extents 0.25 0.25 = 1%float /\
  (fst (square_extents (Binary64.fit_font_size square_extents 0.25 0.25))
   <=? 0.25)%float = false /\
  Binary64.fit_font_size square_extents (2 * 0.25) (2 * 0.25) = 1%float /\
  (Binary64.fit_font_size square_extents 0.25 0.25
   <? Binary64.fit_font_size square_extents (2 * 0.25) (2 * 0.25))%float
  = false /\
  nondecreasing step_extents /\
  Binary64.fit_font_size step_extents 8 8 = 0x1.3ffff8p+2%float /\
  Binary64.fit_font_size step_extents (2 * 8) (2 * 8) = 0x1.3ffffp+2%float /\
  (Binary64.fit_font_size step_extents (2 * 8) (2 * 8)
   <? Binary64.fit_font_size step_extents 8 8)%float = true.
Proof.
  split; [exact square_extents_nondecreasing |].
  split; [vm_compute; reflexivity |].
  split; [vm_compute; reflexivity |].
  split; [vm_compute; reflexivity |].
  split; [vm_compute; reflexivity |].
  split; [exact step_extents_nondecreasing |].
  split; [vm_compute; reflexivity |].
  split; vm_compute; reflexivity.
Qed.

(** Two boxes one unit in the last place apart, both fitting the square
    glyph at their upper bound, get the same size. *)
Example fit_font_size_binary64_ulp :
  Binary64.fit_font_size square_extents
    0x1.28ad97602c884p+9 0x1.28ad97602c884p+9
  = Binary64.fit_font_size square_extents
      0x1.28ad97602c885p+9 0x1.28ad97602c885p+9.
Proof. vm_compute. reflexivity. Qed.

(** *** Distance to the canvas boundary *)

(** From the centre of the 300x300 canvas, to the right. *)
Example distance_to_rect_edge_right :
  Binary64.distance_to_rect_edge (fun _ => 1%float) (fun _ => 0%float)
    300 300 150 150 0 = 150%float.
Proof. vm_compute. reflexivity. Qed.




(** The result is 0 as well from the centre of the 78x105 canvas at the
    angle 4.073474995380803, towards the corner (0, 0). *)
Example distance_to_rect_edge_misses_corner_78_105
  (cos sin : float -> float) :
  let ang := 0x1.04b3d0778efecp+2%float in
  cos ang = (-0x1.315161272130bp-1)%float ->
  sin ang = (-0x1.9b013ddc0f24p-1)%float ->
  Binary64.distance_to_rect_edge cos sin 78 105 39 52.5 ang = 0%float.
Proof.
  intros ang Hc Hs.
  unfold Binary64.distance_to_rect_edge. rewrite Hc, Hs.
  vm_compute. reflexivity.
Qed.
